(** * Document ingestion and retrieval pipeline of [chroma_db/main.py]

    A shallow embedding of the extraction, segmentation, storage and
    query code of [chroma_db/main.py], and the properties its
    specification states about it.

    Python values are modelled as follows.
    - [str]: a Python string is a list of Unicode code points ([N]).
    - [bytes]: the content of a file is a list of [Byte.byte].
    - [float]: distances and relevance scores are exact rationals ([Q]);
      rounding of IEEE doubles is not modelled.
    - exceptions: a call that may raise returns a [result].
    - the external collection (ChromaDB) is an interface, [Collection],
      of which [Mem] is an in-memory instance. *)

From Stdlib Require Import Strings.String Strings.Ascii Strings.Byte.
From Stdlib Require Import Numbers.DecimalString Numbers.DecimalNat.
From Stdlib Require Import Arith NArith ZArith QArith Lia Lqa Bool.
From Stdlib Require Import List Sorting.Sorted.
Import ListNotations.

Set Implicit Arguments.
Local Open Scope nat_scope.
Local Open Scope list_scope.

(** ** Python strings *)

Module PyStr.

(** A Python [str]: the sequence of its code points. *)
Definition str := list N.

(** A string literal of the source (ASCII text). *)
Definition lit (s : string) : str :=
  map N_of_ascii (list_ascii_of_string s).

Definition str_eqb (a b : str) : bool :=
  if list_eq_dec N.eq_dec a b then true else false.

(** [bool(s)]: a string is true when it is not empty. *)
Definition truthy (s : str) : bool :=
  match s with [] => false | _ :: _ => true end.

(** [str.isspace] on one code point: the characters Python's
    [str.strip()] removes when called without argument. *)
Definition isspace (c : N) : bool :=
  ((9 <=? c) && (c <=? 13) || (28 <=? c) && (c <=? 32)
   || (c =? 133) || (c =? 160) || (c =? 5760)
   || (8192 <=? c) && (c <=? 8202)
   || (c =? 8232) || (c =? 8233) || (c =? 8239) || (c =? 8287)
   || (c =? 12288))%N.

Fixpoint lstrip (s : str) : str :=
  match s with
  | [] => []
  | c :: s' => if isspace c then lstrip s' else s
  end.

Definition rstrip (s : str) : str := rev (lstrip (rev s)).

(** [s.strip()] *)
Definition strip (s : str) : str := rstrip (lstrip s).

(** [s.startswith(p)] *)
Fixpoint startswith (p s : str) : bool :=
  match p, s with
  | [], _ => true
  | _ :: _, [] => false
  | a :: p', b :: s' => (a =? b)%N && startswith p' s'
  end.

(** [s.split(sep)] for a non-empty separator: the text is scanned from
    the left; at each occurrence of [sep] the piece read so far is
    emitted and the scan resumes after the separator.  [skip] counts the
    characters of a matched separator still to be passed over, [cur]
    holds the current piece, reversed. *)
Fixpoint split_from (sep : str) (skip : nat) (cur : str) (s : str)
  : list str :=
  match s with
  | [] => [rev cur]
  | c :: s' =>
      match skip with
      | S k => split_from sep k cur s'
      | O =>
          if startswith sep s
          then rev cur :: split_from sep (length sep - 1) [] s'
          else split_from sep 0 (c :: cur) s'
      end
  end.

Definition split (sep s : str) : list str := split_from sep 0 [] s.

(** [s.lower()] on the Latin-1 range, which holds every character of
    the file type names the program uses. *)
Definition lower_char (c : N) : N :=
  (if (65 <=? c) && (c <=? 90) then c + 32
   else if (192 <=? c) && (c <=? 222) && negb (c =? 215) then c + 32
   else c)%N.

Definition lower (s : str) : str := map lower_char s.

(** [str(n)] for a natural number: its decimal digits. *)
Definition str_of_nat (n : nat) : str :=
  lit (NilEmpty.string_of_uint (Nat.to_uint n)).

(** [s[:n]] *)
Definition slice_to (n : nat) (s : str) : str := firstn n s.

(** The line feed character, written [\n] in the source. *)
Definition nl : str := [10%N].

End PyStr.
Import PyStr.

(** ** Exceptions *)

(** The exceptions the program meets, all of them subclasses of
    Python's [Exception]. *)
Inductive exn : Type :=
| UnicodeDecodeError
| OSError
| IndexError
| OtherError (what : string).

Definition is_unicode_decode_error (e : exn) : bool :=
  match e with UnicodeDecodeError => true | _ => false end.

(** The outcome of a call that may raise. *)
Inductive result (A : Type) : Type :=
| Return (a : A)
| Raise (e : exn).
Arguments Return {A} a.
Arguments Raise {A} e.

(** ** Text codecs

    What [open(path, 'r', encoding=name)] followed by [file.read()]
    does to the bytes of a file: strict decoding under the named codec,
    then translation of line endings (universal newlines). *)

Module Codec.

Definition continuation (b : N) : bool := ((128 <=? b) && (b <=? 191))%N.

(** Strict UTF-8: shortest form only, no surrogates, nothing above
    U+10FFFF. *)
Fixpoint utf8 (bs : list N) : option str :=
  match bs with
  | [] => Some []
  | b0 :: r0 =>
      if (b0 <? 128)%N then option_map (cons b0) (utf8 r0)
      else if ((194 <=? b0) && (b0 <=? 223))%N then
        match r0 with
        | b1 :: r1 =>
            if continuation b1
            then option_map (cons ((b0 - 192) * 64 + (b1 - 128))%N) (utf8 r1)
            else None
        | _ => None
        end
      else if ((224 <=? b0) && (b0 <=? 239))%N then
        match r0 with
        | b1 :: b2 :: r2 =>
            let c := ((b0 - 224) * 4096 + (b1 - 128) * 64 + (b2 - 128))%N in
            if continuation b1 && continuation b2 && (2048 <=? c)%N
               && negb ((55296 <=? c) && (c <=? 57343))%N
            then option_map (cons c) (utf8 r2)
            else None
        | _ => None
        end
      else if ((240 <=? b0) && (b0 <=? 244))%N then
        match r0 with
        | b1 :: b2 :: b3 :: r3 =>
            let c := ((b0 - 240) * 262144 + (b1 - 128) * 4096
                      + (b2 - 128) * 64 + (b3 - 128))%N in
            if continuation b1 && continuation b2 && continuation b3
               && (65536 <=? c)%N && (c <=? 1114111)%N
            then option_map (cons c) (utf8 r3)
            else None
        | _ => None
        end
      else None
  end.

(** Latin-1 (ISO-8859-1): byte [b] is code point [b]. *)
Definition latin1 (bs : list N) : option str := Some bs.

(** Windows-1252: Latin-1 except for 0x80-0x9F, five of which are
    undefined. *)
Definition cp1252_high : list (option N) :=
  [ Some 8364; None;      Some 8218; Some 402;  Some 8222; Some 8230;
    Some 8224; Some 8225; Some 710;  Some 8240; Some 352;  Some 8249;
    Some 338;  None;      Some 381;  None;      None;      Some 8216;
    Some 8217; Some 8220; Some 8221; Some 8226; Some 8211; Some 8212;
    Some 732;  Some 8482; Some 353;  Some 8250; Some 339;  None;
    Some 382;  Some 376 ]%N.

Definition cp1252_char (b : N) : option N :=
  if ((b <? 128) || (160 <=? b))%N then Some b
  else match nth_error cp1252_high (N.to_nat (b - 128)) with
       | Some c => c
       | None => None
       end.

Fixpoint cp1252 (bs : list N) : option str :=
  match bs with
  | [] => Some []
  | b :: r =>
      match cp1252_char b, cp1252 r with
      | Some c, Some s => Some (c :: s)
      | _, _ => None
      end
  end.

(** The decoder registered under a codec name. *)
Definition lookup (name : string) : option (list N -> option str) :=
  if (name =? "utf-8")%string then Some utf8
  else if (name =? "latin-1")%string then Some latin1
  else if (name =? "cp1252")%string then Some cp1252
  else if (name =? "iso-8859-1")%string then Some latin1
  else None.

(** [bytes.decode(name)] with [errors='strict'], for the names the
    program uses, all of them registered. *)
Definition decode (name : string) (bs : list byte) : option str :=
  match lookup name with
  | Some d => d (map Byte.to_N bs)
  | None => None
  end.

(** Universal newlines: [\r\n] and a lone [\r] are read as [\n]. *)
Fixpoint universal_newlines (s : str) : str :=
  match s with
  | [] => []
  | c :: s' =>
      if (c =? 13)%N then
        10%N :: match s' with
                | d :: s'' =>
                    if (d =? 10)%N then universal_newlines s''
                    else universal_newlines s'
                | [] => []
                end
      else c :: universal_newlines s'
  end.

End Codec.

(** ** Extractors *)

(** What PyPDF2 makes of a file: opening and parsing may raise;
    otherwise there is one entry per page, the outcome of its
    [extract_text()]. *)
Definition pdf_source := result (list (result str)).

(** The loop [for page_num, page in enumerate(pdf_reader.pages)]. *)
Fixpoint pdf_pages_loop (page_num : nat) (pages : list (result str))
         (text_content : str) : result str :=
  match pages with
  | [] => Return text_content
  | page :: rest =>
      match page with
      | Raise e => Raise e
      | Return page_text =>
          pdf_pages_loop (S page_num) rest
            (if truthy (strip page_text)
             then text_content
                  ++ (lit "Page " ++ str_of_nat (page_num + 1) ++ lit ":"
                      ++ nl ++ page_text ++ nl ++ nl)
             else text_content)
      end
  end.

(** [extract_text_from_pdf]: [None] is the failure signal. *)
Definition extract_text_from_pdf (pdf : pdf_source) : option str :=
  let body :=
    match pdf with
    | Raise e => Raise e
    | Return pages => pdf_pages_loop 0 pages []
    end in
  match body with
  | Raise _ => None
  | Return text_content =>
      if negb (truthy text_content) then None else Some text_content
  end.

Definition encodings_to_try : list string :=
  ["utf-8"; "latin-1"; "cp1252"; "iso-8859-1"]%string.

Section TextExtractor.

(** The codec table in force; [Codec.decode] is Python's. *)
Variable decode : string -> list byte -> option str.

(** [with open(txt_path, 'r', encoding=encoding) as file: file.read()]
    on a file whose opening yields [file]. *)
Definition open_read (file : result (list byte)) (encoding : string)
  : result str :=
  match file with
  | Raise e => Raise e
  | Return bs =>
      match decode encoding bs with
      | Some s => Return (Codec.universal_newlines s)
      | None => Raise UnicodeDecodeError
      end
  end.

(** The loop [for encoding in encodings_to_try]: only
    [UnicodeDecodeError] is caught. *)
Fixpoint try_encodings (file : result (list byte)) (encodings : list string)
  : result (option str) :=
  match encodings with
  | [] => Return None
  | encoding :: rest =>
      match open_read file encoding with
      | Return content => Return (Some content)
      | Raise e =>
          if is_unicode_decode_error e then try_encodings file rest
          else Raise e
      end
  end.

(** [extract_text_from_txt]: [Return None] is the failure signal. *)
Definition extract_text_from_txt (file : result (list byte))
  : result (option str) :=
  try_encodings file encodings_to_try.

End TextExtractor.

(** ** The collection *)

(** The value of [collection.query(...)]: one inner list per query
    text. *)
Record query_result : Type := {
  ids : list (list str);
  documents : list (list str);
  distances : list (list Q)
}.

(** The operations of a ChromaDB collection the repository calls.
    [coll_add] and [coll_upsert] return the collection afterwards and
    the exception raised, if any. *)
Class Collection (C : Type) : Type := {
  coll_add : C -> str -> str -> C * option exn;
  coll_upsert : C -> str -> str -> C * option exn;
  coll_query : C -> str -> nat -> result query_result
}.

(** Modelled from the spec: the external store is missing from the
    sources.  Records are (id, text) pairs kept in insertion order.
    Inserting an id that exists raises nothing: [add], as ChromaDB's,
    leaves the record as it is, and [upsert] overwrites it.  The search
    ranks records by ascending distance to the query text and returns at
    most the requested number of them.  The distance is the embedding
    service's, hence a parameter. *)
Module Mem.

Definition t := list (str * str).

Definition has (c : t) (id : str) : bool :=
  existsb (fun r => str_eqb (fst r) id) c.

Definition add (c : t) (id doc : str) : t * option exn :=
  if has c id then (c, None)
  else (c ++ [(id, doc)], None).

Definition upsert (c : t) (id doc : str) : t * option exn :=
  if has c id
  then (map (fun r => if str_eqb (fst r) id then (id, doc) else r) c, None)
  else (c ++ [(id, doc)], None).

Section Search.

Variable distance : str -> str -> Q.

Fixpoint insert_ranked (text : str) (r : str * str) (l : list (str * str))
  : list (str * str) :=
  match l with
  | [] => [r]
  | r' :: l' =>
      if Qle_bool (distance text (snd r)) (distance text (snd r'))
      then r :: l
      else r' :: insert_ranked text r l'
  end.

Definition ranked (text : str) (c : t) : list (str * str) :=
  fold_right (insert_ranked text) [] c.

Definition query (c : t) (text : str) (n_results : nat)
  : result query_result :=
  let hits := firstn n_results (ranked text c) in
  Return {| ids := [map fst hits];
            documents := [map snd hits];
            distances := [map (fun r => distance text (snd r)) hits] |}.

End Search.

End Mem.

Definition mem_ops (distance : str -> str -> Q) : Collection Mem.t := {|
  coll_add := Mem.add;
  coll_upsert := Mem.upsert;
  coll_query := Mem.query distance
|}.

(** ** Segmentation and storage *)

(** The [file_type] argument: main passes ["PDF"] or ["TXT"]. *)
Inductive file_type : Type := PDF | TXT.

Definition file_type_name (ft : file_type) : str :=
  match ft with PDF => lit "PDF" | TXT => lit "TXT" end.

(** The lines a run prints that tell how it went (banners and
    progress lines are left out), and the calls it makes on the
    collection, in order. *)
Inductive message : Type :=
| ExtractionFailed
| Storing (ft : file_type)
| Added (doc_id : str)
| ErrorAdding (doc_id : str) (e : exn)
| Stored (documents_added : nat)
| NoDocumentsStored
| Searching (user_query : str)
| SearchResults
| ResultLine (rank : nat) (relevance_score : Q) (preview : str)
| NoResults
| ErrorDuringQuery (e : exn)
| SessionCompleted
| ErrorOccurred (e : exn).

Inductive event : Type :=
| Print (m : message)
| AddCall (doc_id section : str)
| QueryCall (query_text : str) (n_results : nat).

(** The split of [content] into [sections], by file type. *)
Definition split_sections (content : str) (ft : file_type) : list str :=
  match ft with
  | PDF =>
      let sections := split (lit "Page ") content in
      map strip (filter (fun section => truthy (strip section)) sections)
  | TXT =>
      map strip
          (filter (fun p => truthy (strip p)) (split (nl ++ nl) content))
  end.

(** [f"{file_type.lower()}_doc_{idx + 1}"] *)
Definition doc_id_of (ft : file_type) (idx : nat) : str :=
  lower (file_type_name ft) ++ lit "_doc_" ++ str_of_nat (idx + 1).

(** Step 2 of [main]: choice ['1'] is a PDF, the other one a text
    file. *)
Definition file_type_of_choice (choice : str) : file_type :=
  if str_eqb choice (lit "1") then PDF else TXT.

(** Step 3 of [main]: the extractor of the file type, applied to the
    selected file as PyPDF2 and as [open] see it. *)
Definition extract_content (ft : file_type) (pdf : pdf_source)
           (txt : result (list byte)) : result (option str) :=
  match ft with
  | PDF => Return (extract_text_from_pdf pdf)
  | TXT => extract_text_from_txt Codec.decode txt
  end.

(** [bool(content)] for a [content] that is [None] or a string. *)
Definition content_truthy (content : option str) : bool :=
  match content with
  | None => false
  | Some text => truthy text
  end.

Definition content_text (content : option str) : str :=
  match content with
  | None => []
  | Some text => text
  end.

Section Store.

Context {C : Type} `{Collection C}.

(** The loop [for idx, section in enumerate(sections)], from position
    [idx] on. *)
Fixpoint store_loop (ft : file_type) (idx : nat) (sections : list str)
         (collection : C) (documents_added : nat)
  : C * nat * list event :=
  match sections with
  | [] => (collection, documents_added, [])
  | section :: rest =>
      if truthy section && (10 <? length section) then
        let doc_id := doc_id_of ft idx in
        match coll_add collection doc_id section with
        | (collection', None) =>
            let '(c, n, log) :=
              store_loop ft (S idx) rest collection' (documents_added + 1) in
            (c, n, AddCall doc_id section :: Print (Added doc_id) :: log)
        | (collection', Some e) =>
            let '(c, n, log) :=
              store_loop ft (S idx) rest collection' documents_added in
            (c, n, AddCall doc_id section :: Print (ErrorAdding doc_id e) :: log)
        end
      else store_loop ft (S idx) rest collection documents_added
  end.

(** [process_and_store_content(collection, content, file_type)]: the
    collection afterwards, the returned count and the events. *)
Definition process_and_store_content (collection : C) (content : str)
           (ft : file_type) : C * nat * list event :=
  let sections := split_sections content ft in
  let '(c, documents_added, log) := store_loop ft 0 sections collection 0 in
  (c, documents_added,
   Print (Storing ft) :: log ++ [Print (Stored documents_added)]).

(** ** Query and display *)

(** [doc[:500] + ("..." if len(doc) > 500 else "")] *)
Definition preview_of (doc : str) : str :=
  slice_to 500 doc ++ (if 500 <? length doc then lit "..." else []).

(** The loop [for i, (doc, distance) in enumerate(zip(docs, dists))]. *)
Fixpoint result_lines (i : nat) (docs : list str) (dists : list Q)
  : list event :=
  match docs, dists with
  | doc :: docs', distance :: dists' =>
      let relevance_score := (1 - distance)%Q in
      Print (ResultLine (i + 1) relevance_score (preview_of doc))
      :: result_lines (S i) docs' dists'
  | _, _ => []
  end.

(** Step 7 of [main]: what is shown for the value of the query. *)
Definition display (results : query_result) : result (list event) :=
  match documents results with
  | docs :: _ =>
      match docs with
      | _ :: _ =>
          match distances results with
          | dists :: _ => Return (result_lines 0 docs dists)
          | [] => Raise IndexError
          end
      | [] => Return [Print NoResults]
      end
  | [] => Return [Print NoResults]
  end.

(** [n_results=min(5, docs_count)] *)
Definition n_results_of (docs_count : nat) : nat := Nat.min 5 docs_count.

(** Steps 5 to 8 of [main]. *)
Definition search (collection : C) (user_query : str) (docs_count : nat)
  : list event :=
  let n_results := n_results_of docs_count in
  [Print (Searching user_query); QueryCall user_query n_results]
  ++ match coll_query collection user_query n_results with
     | Raise e => [Print (ErrorDuringQuery e)]
     | Return results =>
         Print SearchResults
         :: match display results with
            | Return lines => lines
            | Raise e => [Print (ErrorDuringQuery e)]
            end
     end
  ++ [Print SessionCompleted].

(** ** The orchestrator *)

(** What [main] receives from outside: the connection to the store, the
    menu choice, the selected file as PyPDF2 and as [open] see it, and
    the question asked. *)
Record world : Type := {
  connect : result C;
  user_choice : str;
  pdf_file : pdf_source;
  txt_file : result (list byte);
  user_query : str
}.

Definition main (w : world) : list event :=
  match connect w with
  | Raise e => [Print (ErrorOccurred e)]
  | Return collection =>
      let ft := file_type_of_choice (user_choice w) in
      match extract_content ft (pdf_file w) (txt_file w) with
      | Raise e => [Print (ErrorOccurred e)]
      | Return content =>
          if negb (content_truthy content) then [Print ExtractionFailed]
          else
            let '(collection', docs_count, log) :=
              process_and_store_content collection (content_text content) ft in
            log ++
            if docs_count =? 0 then [Print NoDocumentsStored]
            else search collection' (user_query w) docs_count
      end
  end.

End Store.

Arguments world : clear implicits.

(** ** The demonstration script [chroma_db/app.py] *)

Definition app_documents : list (str * str) :=
  [ (lit "doc1", lit "This is the first document.");
    (lit "doc2", lit "This is the second document.");
    (lit "doc3", lit "This is the third document.");
    (lit "doc4", lit "This is the fourth document.");
    (lit "doc5", lit "This is the fifth document.");
    (lit "doc6", lit "This is the sixth document.") ].

(** The loop [for doc in documents: collection.upsert(...)]: nothing
    is caught, an exception ends the script. *)
Fixpoint app_store {C : Type} `{Collection C} (collection : C)
         (docs : list (str * str)) : result C :=
  match docs with
  | [] => Return collection
  | (doc_id, text) :: rest =>
      match coll_upsert collection doc_id text with
      | (collection', None) => app_store collection' rest
      | (_, Some e) => Raise e
      end
  end.

(** ** Console input

    [input(...)] takes the next line typed, without its line end, and
    raises [EOFError] when no line is left.  A reader returns its value
    or the exception, the lines left unread and what it printed about
    the entries it refused. *)

Definition EOFError : exn := OtherError "EOFError".

Inductive notice : Type :=
| InvalidChoice
| UsingDefaultFile
| FileNotFound (file_path : str)
| InvalidQuestion.

(** [get_user_choice()] *)
Fixpoint get_user_choice (lines : list str)
  : result str * list str * list notice :=
  match lines with
  | [] => (Raise EOFError, [], [])
  | line :: rest =>
      let choice := strip line in
      if str_eqb choice (lit "1") || str_eqb choice (lit "2")
      then (Return choice, rest, [])
      else
        let '(r, unread, out) := get_user_choice rest in
        (r, unread, InvalidChoice :: out)
  end.

(** The value of [get_file_path()]: the sample file of the
    repository, or the path typed. *)
Inductive file_path : Type :=
| DefaultSample
| Typed (path : str).

Section FilePath.

(** [pathlib.Path(p).exists()] on the file system at hand. *)
Variable exists_ : str -> result bool.

(** [get_file_path()] *)
Fixpoint get_file_path (lines : list str)
  : result file_path * list str * list notice :=
  match lines with
  | [] => (Raise EOFError, [], [])
  | line :: rest =>
      let typed := strip line in
      if negb (truthy typed) then (Return DefaultSample, rest, [UsingDefaultFile])
      else
        match exists_ typed with
        | Raise e => (Raise e, rest, [])
        | Return true => (Return (Typed typed), rest, [])
        | Return false =>
            let '(r, unread, out) := get_file_path rest in
            (r, unread, FileNotFound typed :: out)
        end
  end.

End FilePath.

(** [get_user_query()] *)
Fixpoint get_user_query (lines : list str)
  : result str * list str * list notice :=
  match lines with
  | [] => (Raise EOFError, [], [])
  | line :: rest =>
      let query := strip line in
      if truthy query then (Return query, rest, [])
      else
        let '(r, unread, out) := get_user_query rest in
        (r, unread, InvalidQuestion :: out)
  end.

(** ** The run at the console

    [main] with its three readers: what is outside is the store, the
    file system and the lines typed.  The trace holds the notices of the
    readers and the events of the run, in order. *)

Record machine (C : Type) : Type := {
  cloud : result C;
  file_exists : str -> result bool;
  read_pdf : file_path -> pdf_source;
  read_txt : file_path -> result (list byte)
}.

Definition said (out : list notice) : list (notice + event) := map inl out.

Definition did (log : list event) : list (notice + event) := map inr log.

Section Console.

Context {C : Type} `{Collection C}.

Definition main_at_console (m : machine C) (lines : list str)
  : list (notice + event) :=
  match cloud m with
  | Raise e => did [Print (ErrorOccurred e)]
  | Return collection =>
      let '(choice, lines1, out1) := get_user_choice lines in
      said out1 ++
      match choice with
      | Raise e => did [Print (ErrorOccurred e)]
      | Return choice =>
          let ft := file_type_of_choice choice in
          let '(path, lines2, out2) :=
            get_file_path (file_exists m) lines1 in
          said out2 ++
          match path with
          | Raise e => did [Print (ErrorOccurred e)]
          | Return path =>
              match extract_content ft (read_pdf m path) (read_txt m path) with
              | Raise e => did [Print (ErrorOccurred e)]
              | Return content =>
                  if negb (content_truthy content)
                  then did [Print ExtractionFailed]
                  else
                    let '(collection', docs_count, log) :=
                      process_and_store_content
                        collection (content_text content) ft in
                    did log ++
                    if docs_count =? 0 then did [Print NoDocumentsStored]
                    else
                      let '(query, _, out3) := get_user_query lines2 in
                      said out3 ++
                      match query with
                      | Raise e => did [Print (ErrorOccurred e)]
                      | Return user_query =>
                          did (search collection' user_query docs_count)
                      end
              end
          end
      end
  end.

End Console.

Arguments machine : clear implicits.

(** ** Definitions used to state the properties *)

(** The text one page contributes: its marker, its text and a blank
    line, or nothing when the page holds only whitespace. *)
Definition page_block (n : nat) (page_text : str) : str :=
  if truthy (strip page_text)
  then lit "Page " ++ str_of_nat n ++ lit ":" ++ nl ++ page_text ++ nl ++ nl
  else [].

(** The blocks of the pages numbered from [first + 1], in page order. *)
Definition page_blocks (first : nat) (page_texts : list str) : str :=
  concat (map (fun p => page_block (fst p + 1) (snd p))
              (combine (seq first (length page_texts)) page_texts)).

Definition whitespace_only (s : str) : Prop := forallb isspace s = true.

(** The (id, text) pairs handed to [collection.add], in order. *)
Fixpoint add_calls (log : list event) : list (str * str) :=
  match log with
  | [] => []
  | AddCall doc_id section :: rest => (doc_id, section) :: add_calls rest
  | _ :: rest => add_calls rest
  end.

(** The queries made on the collection, in order. *)
Fixpoint query_calls (log : list event) : list (str * nat) :=
  match log with
  | [] => []
  | QueryCall text n :: rest => (text, n) :: query_calls rest
  | _ :: rest => query_calls rest
  end.

(** The sections of [sections] longer than 10 characters, each with
    the id its position gives it; positions count from [idx]. *)
Definition requests (ft : file_type) (idx : nat) (sections : list str)
  : list (str * str) :=
  map (fun p => (doc_id_of ft (fst p), snd p))
      (filter (fun p => 10 <? length (snd p))
              (combine (seq idx (length sections)) sections)).

(** One insertion and what became of it. *)
Definition outcome : Type := (str * str * option exn)%type.

Definition request_of (o : outcome) : str * str := fst o.

Definition succeeded (o : outcome) : bool :=
  match snd o with None => true | Some _ => false end.

Definition successes (os : list outcome) : nat :=
  length (filter succeeded os).

Definition failures (os : list outcome) : nat :=
  length (filter (fun o => negb (succeeded o)) os).

(** What an insertion leaves in the log. *)
Definition events_of (o : outcome) : list event :=
  let '(doc_id, section, r) := o in
  [AddCall doc_id section;
   Print (match r with
          | None => Added doc_id
          | Some e => ErrorAdding doc_id e
          end)].

(** Every request is handed to [coll_add], each on the collection the
    previous ones left, whatever their outcomes. *)
Fixpoint submit {C : Type} `{Collection C} (c : C)
         (reqs : list (str * str)) : C * list outcome :=
  match reqs with
  | [] => (c, [])
  | (doc_id, section) :: rest =>
      let '(c1, r) := coll_add c doc_id section in
      let '(c', os) := submit c1 rest in
      (c', (doc_id, section, r) :: os)
  end.

(** The relevance scores, previews and ranks shown, in order. *)
Fixpoint shown_scores (log : list event) : list Q :=
  match log with
  | [] => []
  | Print (ResultLine _ score _) :: rest => score :: shown_scores rest
  | _ :: rest => shown_scores rest
  end.

Fixpoint shown_previews (log : list event) : list str :=
  match log with
  | [] => []
  | Print (ResultLine _ _ preview) :: rest => preview :: shown_previews rest
  | _ :: rest => shown_previews rest
  end.

Fixpoint shown_ranks (log : list event) : list nat :=
  match log with
  | [] => []
  | Print (ResultLine rank _ _) :: rest => rank :: shown_ranks rest
  | _ :: rest => shown_ranks rest
  end.

(** The errors logged for insertions. *)
Fixpoint insertion_errors (log : list event) : list (str * exn) :=
  match log with
  | [] => []
  | Print (ErrorAdding doc_id e) :: rest =>
      (doc_id, e) :: insertion_errors rest
  | _ :: rest => insertion_errors rest
  end.

(** A collection for examples whose insert fails for one id, as when
    the embedding of its text cannot be computed. *)
Definition failing_insert_ops (bad_id : str) : Collection Mem.t := {|
  coll_add := fun c id doc =>
                if str_eqb id bad_id
                then (c, Some (OtherError "embedding failed"))
                else Mem.add c id doc;
  coll_upsert := Mem.upsert;
  coll_query := fun c text n => Mem.query (fun _ _ => 0%Q) c text n
|}.

(** [sep.join(pieces)] *)
Fixpoint join (sep : str) (pieces : list str) : str :=
  match pieces with
  | [] => []
  | p :: rest =>
      match rest with
      | [] => p
      | _ :: _ => p ++ sep ++ join sep rest
      end
  end.

(** [sep in s] *)
Fixpoint contains (sep s : str) : bool :=
  startswith sep s
  || match s with
     | [] => false
     | _ :: s' => contains sep s'
     end.

(** A paragraph of a text file: a non-empty text with no whitespace
    around it and no blank line inside. *)
Definition paragraph (p : str) : Prop :=
  p <> [] /\ strip p = p /\ contains (nl ++ nl) p = false.

(** Worlds for examples: a connection to a new in-memory collection,
    the text file choice and a file of the given bytes. *)
Definition txt_world (bs : list byte) (question : str) : world Mem.t :=
  {| connect := Return [];
     user_choice := lit "2";
     pdf_file := Raise (OtherError "not a PDF");
     txt_file := Return bs;
     user_query := question |}.

(** The bytes of an ASCII text. *)
Definition ascii_bytes (s : string) : list byte :=
  map byte_of_ascii (list_ascii_of_string s).

(** A distance for examples: how far apart the lengths of the two
    texts are, scaled into [0, 1). *)
Definition length_distance (a b : str) : Q :=
  let d := Z.abs (Z.of_nat (length a) - Z.of_nat (length b)) in
  (d # Pos.of_nat (S (Z.to_nat d)))%Q.

(** A text file of three paragraphs, each a section that is stored. *)
Definition three_paragraphs : str :=
  (lit "the first paragraph" ++ nl ++ nl ++ lit "the second paragraph"
   ++ nl ++ nl ++ lit "the third paragraph")%list.

(** The characters of a text that are not whitespace, in order. *)
Definition nonspace (s : str) : str :=
  filter (fun c => negb (isspace c)) s.

(** What a page contributes after its marker: its 1-based number, a
    colon, a line feed, its text and a blank line. *)
Definition page_body (n : nat) (page_text : str) : str :=
  str_of_nat n ++ lit ":" ++ nl ++ page_text ++ nl ++ nl.

(** The pages that hold more than whitespace, each with its 0-based
    position in the file; positions count from [first]. *)
Definition printed_pages (first : nat) (page_texts : list str)
  : list (nat * str) :=
  filter (fun p => truthy (strip (snd p)))
         (combine (seq first (length page_texts)) page_texts).

(** A collection for examples whose search is out of order. *)
Definition no_search_ops : Collection Mem.t := {|
  coll_add := Mem.add;
  coll_upsert := Mem.upsert;
  coll_query := fun _ _ _ => Raise (OtherError "search unavailable")
|}.

(** The events of a trace, the notices left out. *)
Fixpoint events_only (trace : list (notice + event)) : list event :=
  match trace with
  | [] => []
  | inl _ :: rest => events_only rest
  | inr ev :: rest => ev :: events_only rest
  end.

(** ** The conversation script [7_context_and_memory_management.py]

    A message is a dictionary with a role and a content; the history is
    the list [messages].  The language model behind [client] is
    outside: [api model_name messages] is the content of the first
    choice of its answer, or the exception raised. *)

Record chat_message : Type := {
  role : str;
  content : str
}.

(** [create_initial_messages()] *)
Definition create_initial_messages : list chat_message :=
  [{| role := lit "system"; content := lit "You are a helpful assistant." |}].

(** [messages[-5:]] *)
Definition last_five (messages : list chat_message) : list chat_message :=
  skipn (length messages - 5) messages.

(** [summarize_messages(messages)] *)
Definition summarize_messages (messages : list chat_message)
  : list chat_message :=
  let summary :=
    lit "Previous conversation summarized: "
    ++ join (lit " ")
            (map (fun m => slice_to 50 (content m) ++ lit "...")
                 (last_five messages)) in
  {| role := lit "system"; content := summary |} :: last_five messages.

Section Chat.

Variable api : str -> list chat_message -> result str.

(** [str(e)] for the exception of a failed call. *)
Variable describe : exn -> str.

(** [chat(user_input, messages, client, model_name)]: the value
    returned and the history afterwards. *)
Definition chat (user_input : str) (messages : list chat_message)
           (model_name : str) : str * list chat_message :=
  let messages1 :=
    messages ++ [{| role := lit "user"; content := user_input |}] in
  match api model_name messages1 with
  | Return assistant_response =>
      (assistant_response,
       messages1
       ++ [{| role := lit "assistant"; content := assistant_response |}])
  | Raise e => (lit "Error with API: " ++ describe e, messages1)
  end.

(** What the loop of [main] prints. *)
Inductive chat_output : Type :=
| Saved
| Loaded
| NoConversationFile
| Summarized
| Assistant (response : str)
| AutoSummarized.

(** How the loop ends: by the command [quit], or by [EOFError] when
    the input runs out. *)
Inductive chat_ending : Type :=
| Quit
| InputEnded.

(** The loop of [main], from the history [messages] and with [file]
    for what [conversation.json] holds, if it exists: the ending, the
    history and the file at the end, and what was printed.  No
    character outside Latin-1 is lower-cased to a letter of the four
    commands, so that [lower] tells them as [str.lower] does. *)
Fixpoint conversation (model_name : str) (lines : list str)
         (messages : list chat_message) (file : option (list chat_message))
  : chat_ending * list chat_message * option (list chat_message)
    * list chat_output :=
  match lines with
  | [] => (InputEnded, messages, file, [])
  | user_input :: rest =>
      let command := lower user_input in
      if str_eqb command (lit "quit") then (Quit, messages, file, [])
      else if str_eqb command (lit "save") then
        let '(ending, final, file', out) :=
          conversation model_name rest messages (Some messages) in
        (ending, final, file', Saved :: out)
      else if str_eqb command (lit "load") then
        match file with
        | Some saved =>
            let '(ending, final, file', out) :=
              conversation model_name rest saved file in
            (ending, final, file', Loaded :: out)
        | None =>
            let '(ending, final, file', out) :=
              conversation model_name rest create_initial_messages file in
            (ending, final, file', NoConversationFile :: Loaded :: out)
        end
      else if str_eqb command (lit "summary") then
        let '(ending, final, file', out) :=
          conversation model_name rest (summarize_messages messages) file in
        (ending, final, file', Summarized :: out)
      else
        let '(response, messages1) := chat user_input messages model_name in
        if 10 <? length messages1 then
          let '(ending, final, file', out) :=
            conversation model_name rest (summarize_messages messages1) file in
          (ending, final, file', Assistant response :: AutoSummarized :: out)
        else
          let '(ending, final, file', out) :=
            conversation model_name rest messages1 file in
          (ending, final, file', Assistant response :: out)
  end.

End Chat.

(** * Properties *)

(** ** Strings *)

Example split_paragraphs :
  split (nl ++ nl) (lit "ab" ++ nl ++ nl ++ nl ++ lit "cd")
  = [lit "ab"; nl ++ lit "cd"].
Proof. reflexivity. Qed.

Example split_page_markers :
  split (lit "Page ") (lit "Page 1:x Page 2:y")
  = [[]; lit "1:x "; lit "2:y"].
Proof. reflexivity. Qed.

Example strip_both_sides : strip (lit "  a b  ") = lit "a b".
Proof. reflexivity. Qed.

Example str_of_nat_12 : str_of_nat 12 = lit "12".
Proof. reflexivity. Qed.

Example lower_pdf : lower (lit "PDF") = lit "pdf".
Proof. reflexivity. Qed.

Lemma truthy_nil (s : str) : truthy s = false <-> s = [].
Proof. destruct s; simpl; split; congruence. Qed.

Lemma lstrip_nil (s : str) : lstrip s = [] <-> whitespace_only s.
Proof.
  unfold whitespace_only.
  induction s as [|c s IH]; simpl; [tauto|].
  destruct (isspace c); simpl; [exact IH|].
  split; discriminate.
Qed.

Lemma whitespace_only_rev (s : str) :
  whitespace_only (rev s) <-> whitespace_only s.
Proof.
  unfold whitespace_only.
  rewrite !forallb_forall.
  split; intros Hs c Hc; apply Hs; [apply in_rev in Hc|apply in_rev];
    try rewrite rev_involutive; assumption.
Qed.

Lemma lstrip_suffix (s : str) : exists p, s = p ++ lstrip s /\ whitespace_only p.
Proof.
  induction s as [|c s [p [Hp Hw]]]; simpl.
  - exists []. split; reflexivity.
  - destruct (isspace c) eqn:Hc.
    + exists (c :: p). split.
      * simpl. congruence.
      * unfold whitespace_only in *. simpl. now rewrite Hc.
    + exists []. split; reflexivity.
Qed.

Lemma whitespace_only_app (a b : str) :
  whitespace_only (a ++ b) <-> whitespace_only a /\ whitespace_only b.
Proof.
  unfold whitespace_only. rewrite forallb_app, andb_true_iff. tauto.
Qed.

(** [s.strip()] is empty exactly when [s] holds only whitespace. *)
Lemma strip_nil (s : str) : strip s = [] <-> whitespace_only s.
Proof.
  unfold strip, rstrip.
  split.
  - intros Hs.
    assert (Hl : lstrip (rev (lstrip s)) = []).
    { destruct (lstrip (rev (lstrip s))); [reflexivity|].
      simpl in Hs. now apply app_eq_nil in Hs as [_ Hs]. }
    apply lstrip_nil in Hl. apply -> whitespace_only_rev in Hl.
    destruct (lstrip_suffix s) as [p [Hp Hw]].
    assert (Happ : whitespace_only (p ++ lstrip s)).
    { apply whitespace_only_app. now split. }
    now rewrite <- Hp in Happ.
  - intros Hs. apply lstrip_nil in Hs. now rewrite Hs.
Qed.

(** ** The PDF extractor *)

Lemma page_blocks_cons (k : nat) (t : str) (ts : list str) :
  page_blocks k (t :: ts) = page_block (k + 1) t ++ page_blocks (S k) ts.
Proof. reflexivity. Qed.

Lemma page_block_cases (n : nat) (t : str) :
  page_block n t =
  if forallb isspace t then []
  else lit "Page " ++ str_of_nat n ++ lit ":" ++ nl ++ t ++ nl ++ nl.
Proof.
  unfold page_block.
  destruct (truthy (strip t)) eqn:Ht.
  - destruct (forallb isspace t) eqn:Hw; [|reflexivity].
    apply strip_nil in Hw. rewrite Hw in Ht. discriminate.
  - apply truthy_nil, strip_nil in Ht. unfold whitespace_only in Ht.
    now rewrite Ht.
Qed.

Lemma page_block_nil (n : nat) (t : str) :
  page_block n t = [] <-> whitespace_only t.
Proof.
  rewrite page_block_cases. unfold whitespace_only.
  destruct (forallb isspace t); split; try reflexivity; discriminate.
Qed.

Lemma page_blocks_nil (ts : list str) :
  forall k, page_blocks k ts = [] <-> Forall whitespace_only ts.
Proof.
  induction ts as [|t ts IH]; intros k.
  - split; [constructor | reflexivity].
  - rewrite page_blocks_cons. split.
    + intros Happ. apply app_eq_nil in Happ as [Ht Hts].
      constructor; [now apply page_block_nil in Ht | now apply IH in Hts].
    + intros Hall. inversion Hall as [|? ? Ht Hts]; subst.
      apply (page_block_nil (k + 1)) in Ht. apply (IH (S k)) in Hts.
      now rewrite Ht, Hts.
Qed.

Lemma pdf_pages_loop_blocks (ts : list str) :
  forall k acc,
    pdf_pages_loop k (map Return ts) acc = Return (acc ++ page_blocks k ts).
Proof.
  induction ts as [|t ts IH]; intros k acc; simpl.
  - unfold page_blocks. simpl. now rewrite app_nil_r.
  - rewrite IH, page_blocks_cons. f_equal. unfold page_block.
    destruct (truthy (strip t)); [now rewrite app_assoc | reflexivity].
Qed.

Lemma pdf_pages_loop_raise (ts : list str) (e : exn)
      (after : list (result str)) :
  forall k acc,
    pdf_pages_loop k (map Return ts ++ Raise e :: after) acc = Raise e.
Proof.
  induction ts as [|t ts IH]; intros k acc; simpl; [reflexivity | apply IH].
Qed.

(** C6. From a file that cannot be opened or parsed, or one of whose
    pages cannot be extracted, [extract_text_from_pdf] returns the
    failure signal.  From a readable PDF it returns the concatenation, in
    page order, of one block per page: nothing for a page holding only
    whitespace, and otherwise the marker "Page n:" with the 1-based page
    number, a line feed, the page text and a blank line; it returns the
    failure signal instead when that text is empty, which is the case
    exactly when every page holds only whitespace. *)
Theorem C6_extract_text_from_pdf_spec :
  forall (page_texts : list str) (e : exn) (after : list (result str)),
    extract_text_from_pdf (Raise e) = None
    /\ extract_text_from_pdf (Return (map Return page_texts ++ Raise e :: after))
       = None
    /\ extract_text_from_pdf (Return (map Return page_texts))
       = (if truthy (page_blocks 0 page_texts)
          then Some (page_blocks 0 page_texts) else None)
    /\ (forall k t ts,
           page_blocks k (t :: ts)
           = page_block (k + 1) t ++ page_blocks (S k) ts)
    /\ page_blocks 0 [] = []
    /\ (forall n t,
           page_block n t
           = if forallb isspace t then []
             else lit "Page " ++ str_of_nat n ++ lit ":" ++ nl ++ t ++ nl ++ nl)
    /\ (extract_text_from_pdf (Return (map Return page_texts)) = None
        <-> Forall whitespace_only page_texts).
Proof.
  intros page_texts e after.
  assert (Hrun : extract_text_from_pdf (Return (map Return page_texts))
                 = if truthy (page_blocks 0 page_texts)
                   then Some (page_blocks 0 page_texts) else None).
  { unfold extract_text_from_pdf. rewrite pdf_pages_loop_blocks. simpl.
    now destruct (truthy (page_blocks 0 page_texts)). }
  repeat split.
  - unfold extract_text_from_pdf. now rewrite pdf_pages_loop_raise.
  - exact Hrun.
  - apply page_block_cases.
  - rewrite Hrun. intros Hnone. apply (page_blocks_nil page_texts 0).
    destruct (page_blocks 0 page_texts); [reflexivity | discriminate].
  - rewrite Hrun. intros Hall. apply (page_blocks_nil page_texts 0) in Hall.
    now rewrite Hall.
Qed.

Example scenario_two_page_pdf :
  extract_text_from_pdf
    (Return [Return (lit "first page text"); Return (lit "  ");
             Return (lit "third page text")])
  = Some (lit "Page 1:" ++ nl ++ lit "first page text" ++ nl ++ nl
          ++ lit "Page 3:" ++ nl ++ lit "third page text" ++ nl ++ nl).
Proof. reflexivity. Qed.

(** ** The text extractor *)

Section TextExtractorFacts.

Variable decode : string -> list byte -> option str.
Variable bs : list byte.

Let fails (encoding : string) : Prop := decode encoding bs = None.

Lemma try_encodings_none (encodings : list string) :
  try_encodings decode (Return bs) encodings = Return None
  <-> Forall fails encodings.
Proof.
  induction encodings as [|enc rest IH]; simpl.
  - split; [constructor | reflexivity].
  - destruct (decode enc bs) eqn:Hd; simpl.
    + split; [discriminate|].
      intros Hall. inversion Hall as [|? ? Hf _]; subst.
      unfold fails in Hf. congruence.
    + rewrite IH. split.
      * intros Hall. now constructor.
      * intros Hall. now inversion Hall.
Qed.

Lemma try_encodings_some (encodings : list string) (content : str) :
  try_encodings decode (Return bs) encodings = Return (Some content)
  <-> exists before encoding after s,
        encodings = before ++ encoding :: after
        /\ Forall fails before
        /\ decode encoding bs = Some s
        /\ content = Codec.universal_newlines s.
Proof.
  revert content.
  induction encodings as [|enc rest IH]; intros content; simpl.
  - split; [discriminate|].
    intros (before & encoding & after & s & Heq & _).
    now destruct before.
  - destruct (decode enc bs) as [s0|] eqn:Hd; simpl.
    + split.
      * intros Hret. injection Hret as <-.
        exists [], enc, rest, s0. repeat split; auto.
      * intros (before & encoding & after & s & Heq & Hall & Hs & ->).
        destruct before as [|b before]; simpl in Heq; injection Heq as <- Hrest.
        -- congruence.
        -- inversion Hall as [|? ? Hf _]; subst. unfold fails in Hf.
           congruence.
    + rewrite IH. split.
      * intros (before & encoding & after & s & -> & Hall & Hs & ->).
        exists (enc :: before), encoding, after, s.
        repeat split; auto.
      * intros (before & encoding & after & s & Heq & Hall & Hs & ->).
        destruct before as [|b before]; simpl in Heq; injection Heq as <- Hrest.
        -- congruence.
        -- exists before, encoding, after, s. subst rest.
           repeat split; auto. now inversion Hall.
Qed.

Lemma try_encodings_returns (encodings : list string) (e : exn) :
  try_encodings decode (Return bs) encodings <> Raise e.
Proof.
  induction encodings as [|enc rest IH]; simpl; [discriminate|].
  destruct (decode enc bs); simpl; [discriminate | exact IH].
Qed.

End TextExtractorFacts.

(** C7. [extract_text_from_txt] tries utf-8, latin-1, cp1252 and
    iso-8859-1 in that order.  On the bytes of a file it returns the text
    read under the first encoding of the list that decodes them, and it
    returns the failure signal if and only if every encoding of the list
    fails to decode them: then the result is [None], not an empty
    text. *)
Theorem C7_extract_text_from_txt_first_decoding :
  forall (decode : string -> list byte -> option str) (bs : list byte),
    encodings_to_try = ["utf-8"; "latin-1"; "cp1252"; "iso-8859-1"]%string
    /\ (forall content,
           extract_text_from_txt decode (Return bs) = Return (Some content)
           <-> exists before encoding after s,
                 encodings_to_try = before ++ encoding :: after
                 /\ Forall (fun enc => decode enc bs = None) before
                 /\ decode encoding bs = Some s
                 /\ content = Codec.universal_newlines s)
    /\ (extract_text_from_txt decode (Return bs) = Return None
        <-> Forall (fun enc => decode enc bs = None) encodings_to_try)
    /\ (forall e, extract_text_from_txt decode (Return bs) <> Raise e)
    /\ (Forall (fun enc => decode enc bs = None) encodings_to_try
        <-> extract_text_from_txt decode (Return bs) <> Return (Some [])
            /\ forall content,
                 extract_text_from_txt decode (Return bs)
                 <> Return (Some content)).
Proof.
  intros decode bs. unfold extract_text_from_txt.
  split; [reflexivity|].
  split; [intros content; apply try_encodings_some|].
  split; [apply try_encodings_none|].
  split; [intros e; apply try_encodings_returns|].
  rewrite <- try_encodings_none. split.
  - intros Hnone. rewrite Hnone. split; [|intros content]; discriminate.
  - intros [_ Hno].
    destruct (try_encodings decode (Return bs) encodings_to_try)
      as [[content|]|e] eqn:Hrun.
    + now destruct (Hno content).
    + reflexivity.
    + now apply try_encodings_returns in Hrun.
Qed.

Lemma decode_latin1_total (bs : list byte) :
  Codec.decode "latin-1" bs = Some (map Byte.to_N bs).
Proof. reflexivity. Qed.

Lemma extract_text_from_txt_decoded (bs : list byte) :
  extract_text_from_txt Codec.decode (Return bs)
  = Return (Some (Codec.universal_newlines
                    match Codec.decode "utf-8" bs with
                    | Some s => s
                    | None => map Byte.to_N bs
                    end)).
Proof.
  unfold extract_text_from_txt, encodings_to_try.
  cbn [try_encodings open_read].
  destruct (Codec.decode "utf-8" bs) as [s|]; [reflexivity|].
  cbn [is_unicode_decode_error]. now rewrite decode_latin1_total.
Qed.

(** C10. For every file whose bytes can be read,
    [extract_text_from_txt] returns a decoded text and never the failure
    signal: latin-1, the second encoding tried, decodes every byte
    sequence (byte b to code point b), so the text is the UTF-8 decoding
    of the bytes when they are valid UTF-8 and their latin-1 decoding
    otherwise.  Only [UnicodeDecodeError] is caught: another exception
    raised when opening the file leaves the function. *)
Theorem C10_txt_failure_branch_unreachable :
  forall (bs : list byte) (e : exn),
    Codec.decode "latin-1" bs = Some (map Byte.to_N bs)
    /\ nth_error encodings_to_try 1 = Some "latin-1"%string
    /\ extract_text_from_txt Codec.decode (Return bs)
       = Return (Some (Codec.universal_newlines
                         match Codec.decode "utf-8" bs with
                         | Some s => s
                         | None => map Byte.to_N bs
                         end))
    /\ extract_text_from_txt Codec.decode (Return bs) <> Return None
    /\ extract_text_from_txt Codec.decode (Raise e)
       = if is_unicode_decode_error e then Return None else Raise e.
Proof.
  intros bs e.
  split; [apply decode_latin1_total|].
  split; [reflexivity|].
  split; [apply extract_text_from_txt_decoded|].
  split.
  - rewrite extract_text_from_txt_decoded. discriminate.
  - unfold extract_text_from_txt. simpl. now destruct e.
Qed.

Example txt_valid_utf8 :
  extract_text_from_txt Codec.decode (Return [xc3; xa9; x0d; x0a; x41])
  = Return (Some [233; 10; 65]%N).
Proof. reflexivity. Qed.

Example txt_invalid_utf8_read_as_latin1 :
  extract_text_from_txt Codec.decode (Return [xe9; x41; x81])
  = Return (Some [233; 65; 129]%N).
Proof. reflexivity. Qed.

Example txt_unopenable :
  extract_text_from_txt Codec.decode (Raise OSError) = Raise OSError.
Proof. reflexivity. Qed.

(** ** Storage: the loop and its requests *)

Lemma requests_nil (ft : file_type) (idx : nat) : requests ft idx [] = [].
Proof. reflexivity. Qed.

Lemma requests_cons (ft : file_type) (idx : nat) (s : str)
      (rest : list str) :
  requests ft idx (s :: rest)
  = if 10 <? length s
    then (doc_id_of ft idx, s) :: requests ft (S idx) rest
    else requests ft (S idx) rest.
Proof.
  unfold requests. simpl. now destruct (10 <? length s).
Qed.

Lemma substantial_truthy (s : str) :
  truthy s && (10 <? length s) = (10 <? length s).
Proof. now destruct s. Qed.

Lemma requests_texts (ft : file_type) (sections : list str) :
  forall idx,
    map snd (requests ft idx sections)
    = filter (fun s => 10 <? length s) sections.
Proof.
  induction sections as [|s rest IH]; intros idx; [reflexivity|].
  rewrite requests_cons. simpl.
  destruct (10 <? length s); simpl; now rewrite IH.
Qed.

Section StoreFacts.

Context {C : Type} `{Collection C}.

Lemma submit_requests (reqs : list (str * str)) :
  forall c, map request_of (snd (submit c reqs)) = reqs.
Proof.
  induction reqs as [|[doc_id section] rest IH]; intros c; simpl.
  - reflexivity.
  - destruct (coll_add c doc_id section) as [c1 r].
    specialize (IH c1). destruct (submit c1 rest) as [c' os].
    simpl in *. now rewrite IH.
Qed.

Lemma successes_failures (os : list outcome) :
  successes os + failures os = length os.
Proof.
  unfold successes, failures.
  induction os as [|o os IH]; simpl; [reflexivity|].
  destruct (succeeded o); simpl; lia.
Qed.

(** The loop is [submit] on the requests of the sections. *)
Lemma store_loop_submit (ft : file_type) (sections : list str) :
  forall idx c n,
    store_loop ft idx sections c n
    = let '(c', os) := submit c (requests ft idx sections) in
      (c', n + successes os, flat_map events_of os).
Proof.
  induction sections as [|s rest IH]; intros idx c n.
  - simpl. now rewrite Nat.add_0_r.
  - cbn [store_loop]. rewrite substantial_truthy, requests_cons.
    destruct (10 <? length s); [|apply IH].
    cbn [submit].
    destruct (coll_add c (doc_id_of ft idx) s) as [c1 [e|]];
      rewrite IH; destruct (submit c1 (requests ft (S idx) rest)) as [c' os];
      unfold successes; simpl; do 2 f_equal; lia.
Qed.

Lemma process_and_store_content_submit (c : C) (content : str)
      (ft : file_type) :
  process_and_store_content c content ft
  = let '(c', os) := submit c (requests ft 0 (split_sections content ft)) in
    (c', successes os,
     Print (Storing ft) :: flat_map events_of os
       ++ [Print (Stored (successes os))]).
Proof.
  unfold process_and_store_content. rewrite store_loop_submit.
  now destruct (submit c (requests ft 0 (split_sections content ft))).
Qed.

Lemma process_and_store_content_collection (c : C) (content : str)
      (ft : file_type) :
  fst (fst (process_and_store_content c content ft))
  = fst (submit c (requests ft 0 (split_sections content ft))).
Proof.
  rewrite process_and_store_content_submit.
  now destruct (submit c (requests ft 0 (split_sections content ft))).
Qed.

Lemma process_and_store_content_count (c : C) (content : str)
      (ft : file_type) :
  snd (fst (process_and_store_content c content ft))
  = successes (snd (submit c (requests ft 0 (split_sections content ft)))).
Proof.
  rewrite process_and_store_content_submit.
  now destruct (submit c (requests ft 0 (split_sections content ft))).
Qed.

Lemma add_calls_app (l1 l2 : list event) :
  add_calls (l1 ++ l2) = add_calls l1 ++ add_calls l2.
Proof.
  induction l1 as [|ev l1 IH]; simpl; [reflexivity|].
  destruct ev; simpl; now rewrite IH.
Qed.

Lemma add_calls_events (os : list outcome) :
  add_calls (flat_map events_of os) = map request_of os.
Proof.
  induction os as [|[[doc_id section] r] os IH]; simpl; [reflexivity|].
  now rewrite IH.
Qed.

Lemma query_calls_app (l1 l2 : list event) :
  query_calls (l1 ++ l2) = query_calls l1 ++ query_calls l2.
Proof.
  induction l1 as [|ev l1 IH]; simpl; [reflexivity|].
  destruct ev; simpl; now rewrite IH.
Qed.

Lemma query_calls_events (os : list outcome) :
  query_calls (flat_map events_of os) = [].
Proof.
  induction os as [|[[doc_id section] r] os IH]; simpl; [reflexivity|].
  exact IH.
Qed.

(** The insertions requested depend on the text and the file type
    alone. *)
Lemma process_and_store_content_add_calls (c : C) (content : str)
      (ft : file_type) :
  add_calls (snd (process_and_store_content c content ft))
  = requests ft 0 (split_sections content ft).
Proof.
  rewrite process_and_store_content_submit.
  pose proof (submit_requests (requests ft 0 (split_sections content ft)) c)
    as Hreq.
  destruct (submit c (requests ft 0 (split_sections content ft))) as [c' os].
  simpl in *. now rewrite add_calls_app, add_calls_events, app_nil_r.
Qed.

Lemma process_and_store_content_no_query (c : C) (content : str)
      (ft : file_type) :
  query_calls (snd (process_and_store_content c content ft)) = [].
Proof.
  rewrite process_and_store_content_submit.
  destruct (submit c (requests ft 0 (split_sections content ft))) as [c' os].
  simpl. now rewrite query_calls_app, query_calls_events.
Qed.

End StoreFacts.

(** C8. Whatever the collection does, [process_and_store_content]
    hands every section longer than 10 characters to [collection.add],
    in order, each on the collection the previous insertions left: an
    insertion that raises is caught, logged as an error for its id and not
    counted, and the following insertions are still made.  The value
    returned, also printed last, is the number of insertions that did
    not raise. *)
Theorem C8_insertion_failures_are_local :
  forall (C : Type) (ops : Collection C) (c : C) (content : str)
         (ft : file_type),
    let reqs := requests ft 0 (split_sections content ft) in
    let os := snd (submit c reqs) in
    process_and_store_content c content ft
    = (fst (submit c reqs), successes os,
       Print (Storing ft) :: flat_map events_of os
         ++ [Print (Stored (successes os))])
    /\ map request_of os = reqs
    /\ add_calls (snd (process_and_store_content c content ft)) = reqs
    /\ successes os + failures os = length reqs
    /\ (forall doc_id section e,
           events_of (doc_id, section, Some e)
           = [AddCall doc_id section; Print (ErrorAdding doc_id e)])
    /\ (forall doc_id section,
           events_of (doc_id, section, None)
           = [AddCall doc_id section; Print (Added doc_id)]).
Proof.
  intros C ops c content ft reqs os.
  split.
  { rewrite process_and_store_content_submit. subst os reqs.
    now destruct (submit c (requests ft 0 (split_sections content ft))). }
  split; [apply submit_requests|].
  split; [apply process_and_store_content_add_calls|].
  split; [|split; reflexivity].
  rewrite successes_failures. subst os.
  transitivity (length (map request_of (snd (submit c reqs)))).
  - now rewrite length_map.
  - now rewrite submit_requests.
Qed.

(** ** Record ids *)

Lemma lit_inj (a b : string) : lit a = lit b -> a = b.
Proof.
  unfold lit. intros Hab.
  rewrite <- (string_of_list_ascii_of_string a),
          <- (string_of_list_ascii_of_string b).
  f_equal.
  revert Hab. generalize (list_ascii_of_string b) as lb.
  induction (list_ascii_of_string a) as [|x la IH]; intros [|y lb] Hab;
    simpl in Hab; try discriminate; [reflexivity|].
  injection Hab as Hxy Hrest. f_equal; [|now apply IH].
  rewrite <- (ascii_N_embedding x), <- (ascii_N_embedding y).
  now rewrite Hxy.
Qed.

Lemma str_of_nat_inj (n m : nat) : str_of_nat n = str_of_nat m -> n = m.
Proof.
  unfold str_of_nat. intros Hnm. apply lit_inj in Hnm.
  apply Unsigned.to_uint_inj.
  assert (Hsome : Some (Nat.to_uint n) = Some (Nat.to_uint m)).
  { rewrite <- (NilEmpty.usu (Nat.to_uint n)),
            <- (NilEmpty.usu (Nat.to_uint m)).
    now rewrite Hnm. }
  now injection Hsome.
Qed.

Lemma doc_id_of_inj (ft : file_type) (i j : nat) :
  doc_id_of ft i = doc_id_of ft j -> i = j.
Proof.
  unfold doc_id_of. intros Hij.
  do 2 apply app_inv_head in Hij.
  apply str_of_nat_inj in Hij. lia.
Qed.

Lemma requests_ids_from (ft : file_type) (sections : list str) :
  forall idx doc_id,
    In doc_id (map fst (requests ft idx sections)) ->
    exists j, idx <= j /\ doc_id = doc_id_of ft j.
Proof.
  induction sections as [|s rest IH]; intros idx doc_id Hin.
  - destruct Hin.
  - rewrite requests_cons in Hin.
    destruct (10 <? length s); simpl in Hin.
    + destruct Hin as [<-|Hin]; [now exists idx|].
      apply IH in Hin as [j [Hj ->]]. exists j. split; [lia | reflexivity].
    + apply IH in Hin as [j [Hj ->]]. exists j. split; [lia | reflexivity].
Qed.

(** The ids requested by one run are pairwise distinct. *)
Lemma requests_ids_nodup (ft : file_type) (sections : list str) :
  forall idx, NoDup (map fst (requests ft idx sections)).
Proof.
  induction sections as [|s rest IH]; intros idx.
  - constructor.
  - rewrite requests_cons.
    destruct (10 <? length s); simpl; [|apply IH].
    constructor; [|apply IH].
    intros Hin. apply requests_ids_from in Hin as [j [Hj Heq]].
    apply doc_id_of_inj in Heq. lia.
Qed.

(** ** The in-memory collection *)

Section MemFacts.

Variable distance : str -> str -> Q.

Local Abbreviation submit := (@submit Mem.t (mem_ops distance)).

Lemma str_eqb_eq (a b : str) : str_eqb a b = true <-> a = b.
Proof.
  unfold str_eqb. destruct (list_eq_dec N.eq_dec a b); split;
    congruence.
Qed.

Lemma mem_has_in (c : Mem.t) (id : str) :
  Mem.has c id = true <-> In id (map fst c).
Proof.
  unfold Mem.has. rewrite existsb_exists, in_map_iff.
  split; intros [r [H1 H2]]; exists r.
  - apply str_eqb_eq in H2. now split.
  - split; [assumption | now apply str_eqb_eq].
Qed.

Lemma mem_add_fresh (c : Mem.t) (id doc : str) :
  ~ In id (map fst c) -> Mem.add c id doc = (c ++ [(id, doc)], None).
Proof.
  intros Hfresh. unfold Mem.add.
  destruct (Mem.has c id) eqn:Hhas; [|reflexivity].
  now apply mem_has_in in Hhas.
Qed.

Lemma mem_add_present (c : Mem.t) (id doc : str) :
  In id (map fst c) -> Mem.add c id doc = (c, None).
Proof.
  intros Hin. unfold Mem.add. apply mem_has_in in Hin. now rewrite Hin.
Qed.

(** Requests with distinct ids, none of them in the collection, are
    all stored, in order. *)
Lemma mem_submit_fresh (reqs : list (str * str)) :
  forall c : Mem.t,
    NoDup (map fst reqs) ->
    (forall id, In id (map fst reqs) -> ~ In id (map fst c)) ->
    submit c reqs = (c ++ reqs, map (fun r => (fst r, snd r, None)) reqs).
Proof.
  induction reqs as [|[id doc] rest IH]; intros c Hnd Hfresh; simpl.
  - now rewrite app_nil_r.
  - inversion Hnd as [|? ? Hnotin Hnd']; subst.
    rewrite mem_add_fresh by (apply Hfresh; now left).
    rewrite IH; [cbn; now rewrite <- app_assoc | assumption |].
    intros id' Hin'. rewrite map_app, in_app_iff. simpl.
    intros [Hc|[<-|[]]]; [|contradiction].
    apply (Hfresh id'); [now right | assumption].
Qed.

(** Requests whose ids are all in the collection raise nothing and
    leave the collection as it was. *)
Lemma mem_submit_present (reqs : list (str * str)) :
  forall c : Mem.t,
    (forall id, In id (map fst reqs) -> In id (map fst c)) ->
    submit c reqs = (c, map (fun r => (fst r, snd r, None)) reqs).
Proof.
  induction reqs as [|[id doc] rest IH]; intros c Hin; simpl.
  - reflexivity.
  - rewrite mem_add_present by (apply Hin; now left).
    rewrite IH; [reflexivity|].
    intros id' Hin'. apply Hin. now right.
Qed.

(** After a run every requested id is in the collection, which has
    only grown, by one record per successful insertion, and whose ids
    remain distinct. *)
Lemma nodup_ids_snoc (c : Mem.t) (id doc : str) :
  NoDup (map fst c) -> ~ In id (map fst c) ->
  NoDup (map fst (c ++ [(id, doc)])).
Proof.
  induction c as [|r c IHc]; simpl; intros Hc Hfresh.
  - constructor; [intros [] | constructor].
  - inversion Hc as [|? ? Hr Hc']; subst.
    constructor.
    + rewrite map_app, in_app_iff. simpl. intros [Hin|[Heq|[]]];
        [contradiction | apply Hfresh; now left].
    + apply IHc; [assumption | intros Hin; apply Hfresh; now right].
Qed.

Lemma mem_submit_grows (reqs : list (str * str)) :
  forall c : Mem.t,
    (exists extra, fst (submit c reqs) = c ++ extra /\ incl extra reqs)
    /\ (forall id, In id (map fst reqs) ->
                   In id (map fst (fst (submit c reqs))))
    /\ (NoDup (map fst c) -> NoDup (map fst (fst (submit c reqs)))).
Proof.
  induction reqs as [|[id doc] rest IH]; intros c.
  - split; [exists []; split; [now rewrite app_nil_r | apply incl_refl]|].
    split; [intros ? []|auto].
  - cbn [submit]. change (coll_add c id doc) with (Mem.add c id doc).
    unfold Mem.add. destruct (Mem.has c id) eqn:Hhas.
    + destruct (IH c) as [[extra [Hext Hincl]] [Hids Hnd]].
      destruct (submit c rest) as [c' os]. cbn [fst snd] in *.
      apply mem_has_in in Hhas. subst c'.
      split; [exists extra; split; [reflexivity | now apply incl_tl]|].
      split; [|exact Hnd].
      intros id' [<-|Hin']; [|now apply Hids].
      rewrite map_app, in_app_iff. now left.
    + destruct (IH (c ++ [(id, doc)])) as [[extra [Hext Hincl]] [Hids Hnd]].
      destruct (submit (c ++ [(id, doc)]) rest) as [c' os].
      cbn [fst snd] in *. subst c'.
      assert (Hfresh : ~ In id (map fst c)).
      { intros Hin. apply mem_has_in in Hin. congruence. }
      split.
      { exists ((id, doc) :: extra). rewrite <- app_assoc. split;
          [reflexivity|].
        apply incl_cons; [now left | now apply incl_tl]. }
      split.
      { intros id' [<-|Hin']; [|now apply Hids].
        rewrite !map_app, !in_app_iff. left. right. now left. }
      intros Hc. apply Hnd. now apply nodup_ids_snoc.
Qed.

(** No insertion raises. *)
Lemma mem_submit_outcomes (reqs : list (str * str)) :
  forall c : Mem.t,
    snd (submit c reqs) = map (fun r => (fst r, snd r, None)) reqs.
Proof.
  induction reqs as [|[id doc] rest IH]; intros c; [reflexivity|].
  cbn [submit]. change (coll_add c id doc) with (Mem.add c id doc).
  unfold Mem.add.
  destruct (Mem.has c id);
    [specialize (IH c) | specialize (IH (c ++ [(id, doc)]))];
    destruct (submit _ rest) as [c' os]; cbn [fst snd map] in *;
    now rewrite IH.
Qed.

Lemma successes_all (reqs : list (str * str)) :
  successes (map (fun r => (fst r, snd r, None)) reqs) = length reqs.
Proof.
  unfold successes. induction reqs as [|r reqs IH]; simpl;
    [reflexivity | now rewrite IH].
Qed.

Lemma mem_has_snoc (c : Mem.t) (id doc id' : str) :
  id' <> id -> Mem.has (c ++ [(id, doc)]) id' = Mem.has c id'.
Proof.
  intros Hne. unfold Mem.has. rewrite existsb_app. simpl.
  destruct (str_eqb id id') eqn:Heq.
  - apply str_eqb_eq in Heq. congruence.
  - now rewrite !orb_false_r.
Qed.

(** Of requests with distinct ids, those whose id is not yet in the
    collection are stored after its records, in order. *)
Lemma mem_submit_appends (reqs : list (str * str)) :
  forall c : Mem.t,
    NoDup (map fst reqs) ->
    fst (submit c reqs)
    = c ++ filter (fun r => negb (Mem.has c (fst r))) reqs.
Proof.
  induction reqs as [|[id doc] rest IH]; intros c Hnd.
  - cbn. now rewrite app_nil_r.
  - inversion Hnd as [|? ? Hnotin Hnd']; subst.
    cbn [submit]. change (coll_add c id doc) with (Mem.add c id doc).
    unfold Mem.add. cbn [filter fst]. destruct (Mem.has c id) eqn:Hhas.
    + specialize (IH c Hnd'). destruct (submit c rest) as [c' os].
      cbn [fst negb] in *. exact IH.
    + specialize (IH (c ++ [(id, doc)]) Hnd').
      destruct (submit (c ++ [(id, doc)]) rest) as [c' os].
      cbn [fst negb] in *. rewrite IH, <- app_assoc. cbn [app].
      do 2 f_equal. apply filter_ext_in. intros [id' doc'] Hin.
      cbn [fst]. rewrite mem_has_snoc; [reflexivity|].
      intros ->. apply Hnotin. apply in_map_iff. now exists (id, doc').
Qed.

(** Upserting a record that a collection of distinct ids holds
    changes nothing. *)
Lemma mem_upsert_same (c : Mem.t) (id doc : str) :
  NoDup (map fst c) -> In (id, doc) c -> Mem.upsert c id doc = (c, None).
Proof.
  intros Hnd Hin. unfold Mem.upsert.
  assert (Hhas : Mem.has c id = true).
  { apply mem_has_in. apply in_map_iff. now exists (id, doc). }
  rewrite Hhas. f_equal.
  induction c as [|r c IH]; [reflexivity|].
  inversion Hnd as [|? ? Hnotin Hnd']; subst. cbn [map].
  destruct (str_eqb (fst r) id) eqn:Hr.
  - apply str_eqb_eq in Hr. destruct Hin as [->|Hin].
    + f_equal. clear IH Hhas Hnd Hnd'.
      induction c as [|r' c IHc]; [reflexivity|]. cbn [map] in *.
      destruct (str_eqb (fst r') id) eqn:Hr'.
      * apply str_eqb_eq in Hr'. exfalso. apply Hnotin. now left.
      * f_equal. apply IHc. intros Hc. apply Hnotin. now right.
    + exfalso. apply Hnotin. rewrite Hr. apply in_map_iff.
      now exists (id, doc).
  - destruct Hin as [->|Hin].
    + cbn [fst] in Hr. assert (Hid : str_eqb id id = true)
        by now apply str_eqb_eq. congruence.
    + f_equal. apply IH; [exact Hnd' | exact Hin|].
      apply mem_has_in. apply in_map_iff. now exists (id, doc).
Qed.

(** The upsert loop of [app.py], run on records a collection of
    distinct ids holds, changes nothing. *)
Lemma app_store_same (docs : list (str * str)) (c : Mem.t) :
  NoDup (map fst c) -> incl docs c ->
  app_store (H := mem_ops distance) c docs = Return c.
Proof.
  intros Hnd. induction docs as [|[id doc] rest IH]; intros Hincl;
    [reflexivity|].
  cbn [app_store].
  change (coll_upsert c id doc) with (Mem.upsert c id doc).
  rewrite mem_upsert_same; [|exact Hnd | apply Hincl; now left].
  apply IH. intros r Hr. apply Hincl. now right.
Qed.

End MemFacts.

(** A run on a new collection stores its requests, all of them. *)
Lemma mem_run_on_empty (distance : str -> str -> Q) (content : str)
      (ft : file_type) :
  let reqs := requests ft 0 (split_sections content ft) in
  process_and_store_content (H := mem_ops distance) [] content ft
  = (reqs, length reqs,
     Print (Storing ft)
       :: flat_map events_of (map (fun r => (fst r, snd r, None)) reqs)
       ++ [Print (Stored (length reqs))]).
Proof.
  intros reqs. rewrite process_and_store_content_submit.
  fold reqs. rewrite mem_submit_fresh.
  - assert (Hlen : successes (map (fun r : str * str => (fst r, snd r, None))
                                  reqs) = length reqs).
    { unfold successes. clear. induction reqs as [|r reqs IH]; simpl;
        [reflexivity | now rewrite IH]. }
    now rewrite Hlen.
  - apply requests_ids_nodup.
  - intros id _ [].
Qed.

(** C2. The id of each record is made of the lower-cased file type,
    "_doc_" and the decimal of idx + 1, where idx is the 0-based position
    of its section in the list of sections the text is split into.  The
    ids one run requests are pairwise distinct; they depend on the text
    and the file type alone, so that running again on the same document,
    on whatever collection, requests the same ids in the same order; on
    a new collection the records stored are exactly these; and a
    collection whose ids are distinct keeps them distinct. *)
Theorem C2_record_ids_deterministic_and_unique :
  forall (content : str) (ft : file_type),
    let sections := split_sections content ft in
    let reqs := requests ft 0 sections in
    reqs = map (fun p => (doc_id_of ft (fst p), snd p))
               (filter (fun p => 10 <? length (snd p))
                       (combine (seq 0 (length sections)) sections))
    /\ (forall idx,
           doc_id_of ft idx
           = lower (file_type_name ft) ++ lit "_doc_" ++ str_of_nat (idx + 1))
    /\ lower (file_type_name PDF) = lit "pdf"
    /\ lower (file_type_name TXT) = lit "txt"
    /\ NoDup (map fst reqs)
    /\ (forall (C : Type) (ops : Collection C) (c : C),
           add_calls (snd (process_and_store_content c content ft)) = reqs)
    /\ (forall distance,
           fst (fst (process_and_store_content (H := mem_ops distance)
                                               [] content ft)) = reqs)
    /\ (forall distance (c : Mem.t),
           NoDup (map fst c) ->
           NoDup (map fst (fst (fst (process_and_store_content
                                       (H := mem_ops distance)
                                       c content ft))))).
Proof.
  intros content ft sections reqs.
  split; [reflexivity|].
  split; [reflexivity|].
  split; [reflexivity|].
  split; [reflexivity|].
  split; [apply requests_ids_nodup|].
  split; [intros C ops c; apply process_and_store_content_add_calls|].
  split; [intros distance; now rewrite mem_run_on_empty|].
  intros distance c Hnd. rewrite process_and_store_content_submit.
  destruct (mem_submit_grows distance reqs c) as [_ [_ Hkeep]].
  fold sections. fold reqs.
  destruct (submit (H := mem_ops distance) c reqs) as [c' os].
  now apply Hkeep.
Qed.

Lemma C2_record_ids_deterministic_and_unique_witness :
  NoDup (map fst
             (fst (fst (process_and_store_content
                          (H := mem_ops length_distance)
                          [(lit "txt_doc_2", lit "left by an earlier run")]
                          (lit "The first paragraph." ++ nl ++ nl
                           ++ lit "The second paragraph.")
                          TXT)))).
Proof.
  apply (C2_record_ids_deterministic_and_unique
           (lit "The first paragraph." ++ nl ++ nl
            ++ lit "The second paragraph.") TXT).
  repeat constructor. intros [].
Defined.

Example scenario_pdf_ids :
  map fst
      (fst (fst (process_and_store_content
                   (H := mem_ops length_distance) []
                   (lit "Page 1:" ++ nl ++ lit "first page text" ++ nl ++ nl
                    ++ lit "Page 2:" ++ nl ++ lit "second page text"
                    ++ nl ++ nl)
                   PDF)))
  = [lit "pdf_doc_1"; lit "pdf_doc_2"].
Proof. vm_compute. reflexivity. Qed.

(** The position counts the sections shorter than the threshold too. *)
Example ids_skip_short_sections :
  map fst
      (fst (fst (process_and_store_content
                   (H := mem_ops length_distance) []
                   (lit "first paragraph" ++ nl ++ nl ++ lit "short"
                    ++ nl ++ nl ++ lit "third paragraph")
                   TXT)))
  = [lit "txt_doc_1"; lit "txt_doc_3"].
Proof. vm_compute. reflexivity. Qed.

(** ** Running twice *)

Lemma insertion_errors_app (l1 l2 : list event) :
  insertion_errors (l1 ++ l2) = insertion_errors l1 ++ insertion_errors l2.
Proof.
  induction l1 as [|ev l1 IH]; simpl; [reflexivity|].
  destruct ev as [m| |]; try exact IH.
  destruct m; simpl; try exact IH. now rewrite IH.
Qed.

(** C1. A second run of [process_and_store_content] on the same text
    and file type, from whatever collection the first run started, leaves
    the stored records, hence their number, unchanged: every insertion is
    requested again under the id it had, none fails, none is logged as an
    error, no record is duplicated, and the run returns the number of its
    requests.  The code calls [collection.add]; where the first run
    stored its sections under ids that were not in use, the records after
    it are what upserting the same sections leaves, so the second run has
    the effect of replacing each record under its id. *)
Theorem C1_second_run_changes_nothing :
  forall (distance : str -> str -> Q) (c : Mem.t) (content : str)
         (ft : file_type),
    let reqs := requests ft 0 (split_sections content ft) in
    let c1 :=
      fst (fst (process_and_store_content (H := mem_ops distance)
                                          c content ft)) in
    let run2 :=
      process_and_store_content (H := mem_ops distance) c1 content ft in
    run2
    = (c1, length reqs,
       Print (Storing ft)
         :: flat_map events_of
              (map (fun r => (fst r, snd r, None)) reqs)
         ++ [Print (Stored (length reqs))])
    /\ length (fst (fst run2)) = length c1
    /\ insertion_errors (snd run2) = []
    /\ add_calls (snd run2) = reqs
    /\ (forall id, In id (map fst reqs) -> In id (map fst c1))
    /\ (NoDup (map fst c) -> NoDup (map fst (fst (fst run2))))
    /\ (NoDup (map fst c) ->
        Forall (fun r => Mem.has c (fst r) = false) reqs ->
        c1 = c ++ reqs
        /\ app_store (H := mem_ops distance) c1 reqs = Return c1).
Proof.
  intros distance c content ft reqs c1 run2.
  assert (Hids : forall id, In id (map fst reqs) -> In id (map fst c1)).
  { intros id Hin. subst c1.
    rewrite process_and_store_content_submit. fold reqs.
    destruct (mem_submit_grows distance reqs c) as [_ [Hids _]].
    specialize (Hids id Hin).
    now destruct (submit (H := mem_ops distance) c reqs). }
  assert (Hnd : NoDup (map fst c) -> NoDup (map fst c1)).
  { intros Hc. subst c1.
    rewrite process_and_store_content_submit. fold reqs.
    destruct (mem_submit_grows distance reqs c) as [_ [_ Hnd]].
    specialize (Hnd Hc).
    now destruct (submit (H := mem_ops distance) c reqs). }
  assert (Hrun : run2
                 = (c1, length reqs,
                    Print (Storing ft)
                      :: flat_map events_of
                           (map (fun r => (fst r, snd r, None)) reqs)
                      ++ [Print (Stored (length reqs))])).
  { subst run2. rewrite process_and_store_content_submit. fold reqs.
    rewrite mem_submit_present by exact Hids.
    now rewrite successes_all. }
  split; [exact Hrun|]. rewrite Hrun. cbn [fst snd].
  split; [reflexivity|].
  split.
  { change (insertion_errors
              ([Print (Storing ft)]
               ++ flat_map events_of
                    (map (fun r => (fst r, snd r, None)) reqs)
               ++ [Print (Stored (length reqs))]) = []).
    rewrite !insertion_errors_app. cbn [insertion_errors app].
    rewrite app_nil_r. clear.
    induction reqs as [|r reqs IH]; [reflexivity | exact IH]. }
  split.
  { change (add_calls
              ([Print (Storing ft)]
               ++ flat_map events_of
                    (map (fun r => (fst r, snd r, None)) reqs)
               ++ [Print (Stored (length reqs))]) = reqs).
    rewrite !add_calls_app. cbn [add_calls app].
    rewrite app_nil_r. clear.
    induction reqs as [|[id doc] reqs IH]; [reflexivity|].
    cbn. now rewrite IH. }
  split; [exact Hids|]. split; [exact Hnd|].
  intros Hc Hfresh.
  assert (Hc1 : c1 = c ++ reqs).
  { subst c1. rewrite process_and_store_content_collection. fold reqs.
    rewrite mem_submit_appends by apply requests_ids_nodup.
    f_equal. clear -Hfresh.
    induction Hfresh as [|r rest Hr _ IH]; [reflexivity|].
    cbn [filter]. rewrite Hr. cbn [negb]. now rewrite IH. }
  split; [exact Hc1|].
  apply app_store_same; [now apply Hnd|].
  rewrite Hc1. apply incl_appr, incl_refl.
Qed.

Lemma C1_second_run_changes_nothing_witness :
  [(lit "txt_doc_1", lit "a paragraph of text")]
  = [] ++ requests TXT 0 (split_sections (lit "a paragraph of text") TXT)
  /\ app_store (H := mem_ops length_distance)
               [(lit "txt_doc_1", lit "a paragraph of text")]
               (requests TXT 0
                         (split_sections (lit "a paragraph of text") TXT))
     = Return [(lit "txt_doc_1", lit "a paragraph of text")].
Proof.
  exact (proj2 (proj2 (proj2 (proj2 (proj2 (proj2
           (C1_second_run_changes_nothing
              length_distance [] (lit "a paragraph of text") TXT))))))
           (NoDup_nil str)
           (Forall_cons _ eq_refl (Forall_nil _))).
Defined.

Example first_run_stores_one :
  process_and_store_content (H := mem_ops length_distance) []
                            (lit "a paragraph of text") TXT
  = ([(lit "txt_doc_1", lit "a paragraph of text")], 1,
     [Print (Storing TXT);
      AddCall (lit "txt_doc_1") (lit "a paragraph of text");
      Print (Added (lit "txt_doc_1"));
      Print (Stored 1)]).
Proof. vm_compute. reflexivity. Qed.

Example second_run_keeps_one :
  process_and_store_content
    (H := mem_ops length_distance)
    [(lit "txt_doc_1", lit "a paragraph of text")]
    (lit "a paragraph of text") TXT
  = ([(lit "txt_doc_1", lit "a paragraph of text")], 1,
     [Print (Storing TXT);
      AddCall (lit "txt_doc_1") (lit "a paragraph of text");
      Print (Added (lit "txt_doc_1"));
      Print (Stored 1)]).
Proof. vm_compute. reflexivity. Qed.

(** A record stored under an id before the runs keeps its text:
    [collection.add] leaves it, where [collection.upsert] would have
    overwritten it. *)
Example earlier_record_keeps_its_text :
  fst (fst (process_and_store_content
              (H := mem_ops length_distance)
              [(lit "txt_doc_1", lit "an earlier text")]
              (lit "a paragraph of text") TXT))
  = [(lit "txt_doc_1", lit "an earlier text")]
  /\ app_store (H := mem_ops length_distance)
               [(lit "txt_doc_1", lit "an earlier text")]
               [(lit "txt_doc_1", lit "a paragraph of text")]
     = Return [(lit "txt_doc_1", lit "a paragraph of text")].
Proof. vm_compute. split; reflexivity. Qed.

(** ** The result budget *)

Lemma insert_ranked_length (distance : str -> str -> Q) (text : str)
      (r : str * str) (l : list (str * str)) :
  length (Mem.insert_ranked distance text r l) = S (length l).
Proof.
  induction l as [|r' l IH]; simpl; [reflexivity|].
  destruct (Qle_bool (distance text (snd r)) (distance text (snd r')));
    simpl; now rewrite ?IH.
Qed.

Lemma ranked_length (distance : str -> str -> Q) (text : str) (c : Mem.t) :
  length (Mem.ranked distance text c) = length c.
Proof.
  unfold Mem.ranked. induction c as [|r c IH]; simpl; [reflexivity|].
  now rewrite insert_ranked_length, IH.
Qed.

(** The search returns as many results as requested when that many
    records are stored. *)
Lemma mem_query_count (distance : str -> str -> Q) (c : Mem.t) (text : str)
      (n : nat) :
  exists hits,
    Mem.query distance c text n
    = Return {| ids := [map fst hits];
                documents := [map snd hits];
                distances := [map (fun r => distance text (snd r)) hits] |}
    /\ length hits = Nat.min n (length c).
Proof.
  exists (firstn n (Mem.ranked distance text c)).
  split; [reflexivity|].
  now rewrite length_firstn, ranked_length.
Qed.

(** A run returns the number of its requests, which the collection
    afterwards holds under distinct ids. *)
Lemma mem_docs_count_stored (distance : str -> str -> Q) (c : Mem.t)
      (content : str) (ft : file_type) :
  let run := process_and_store_content (H := mem_ops distance) c content ft in
  snd (fst run) = length (requests ft 0 (split_sections content ft))
  /\ snd (fst run) <= length (fst (fst run)).
Proof.
  intros run. subst run.
  rewrite process_and_store_content_count,
    process_and_store_content_collection.
  set (reqs := requests ft 0 (split_sections content ft)).
  rewrite (mem_submit_outcomes distance reqs c), successes_all.
  split; [reflexivity|].
  destruct (mem_submit_grows distance reqs c) as [_ [Hids _]].
  rewrite <- (length_map fst reqs),
    <- (length_map fst (fst (submit (H := mem_ops distance) c reqs))).
  apply NoDup_incl_length; [apply requests_ids_nodup | exact Hids].
Qed.

Section SearchFacts.

Context {C : Type} `{Collection C}.

Lemma result_lines_no_calls (docs : list str) :
  forall i dists,
    query_calls (result_lines i docs dists) = []
    /\ add_calls (result_lines i docs dists) = [].
Proof.
  induction docs as [|doc docs IH]; intros i [|d dists]; simpl; auto.
Qed.

Lemma display_no_calls (r : query_result) (lines : list event) :
  display r = Return lines ->
  query_calls lines = [] /\ add_calls lines = [].
Proof.
  unfold display.
  destruct (documents r) as [|[|doc docs] more].
  - intros Heq. injection Heq as <-. now split.
  - intros Heq. injection Heq as <-. now split.
  - destruct (distances r) as [|dists more']; [discriminate|].
    intros Heq. injection Heq as <-.
    exact (result_lines_no_calls (doc :: docs) 0 dists).
Qed.

(** Steps 5 to 8 query the collection once, for [min(5, docs_count)]
    results, and insert nothing. *)
Lemma search_calls (c : C) (text : str) (docs_count : nat) :
  query_calls (search c text docs_count)
  = [(text, Nat.min 5 docs_count)]
  /\ add_calls (search c text docs_count) = [].
Proof.
  unfold search.
  cbn [app query_calls add_calls].
  rewrite query_calls_app, add_calls_app. cbn [query_calls add_calls].
  rewrite !app_nil_r.
  destruct (coll_query c text (n_results_of docs_count)) as [r|e];
    [|now split].
  cbn [query_calls add_calls].
  destruct (display r) as [lines|e] eqn:Hshow; [|now split].
  apply display_no_calls in Hshow as [Hq Ha]. now rewrite Hq, Ha.
Qed.

End SearchFacts.

(** C3. The query of [main] asks for [min(5, docs_count)] results,
    5 being the count the code requests and [docs_count] the count the
    storage run returned, which the collection holds: the request never
    exceeds [min(5, stored)], nor [min(k, stored)] for a larger [k].  The
    search raises nothing when the count asked for exceeds the number of
    records, and returns as many results as the smaller of the two: on a
    collection of 3 records the query of [main] returns exactly 3 results,
    the same as a query for 10. *)
Theorem C3_query_requests_min_5_docs_count :
  forall (distance : str -> str -> Q) (c : Mem.t) (content : str)
         (ft : file_type) (text : str),
    let run := process_and_store_content (H := mem_ops distance) c content ft in
    let c' := fst (fst run) in
    let docs_count := snd (fst run) in
    n_results_of docs_count = Nat.min 5 docs_count
    /\ docs_count <= length c'
    /\ n_results_of docs_count <= Nat.min 5 (length c')
    /\ (forall k, 5 <= k -> n_results_of docs_count <= Nat.min k (length c'))
    /\ query_calls (search (H := mem_ops distance) c' text docs_count)
       = [(text, Nat.min 5 docs_count)]
    /\ (exists hits,
           Mem.query distance c' text (n_results_of docs_count)
           = Return {| ids := [map fst hits];
                       documents := [map snd hits];
                       distances :=
                         [map (fun r => distance text (snd r)) hits] |}
           /\ length hits = Nat.min 5 docs_count)
    /\ (forall k, exists hits,
           Mem.query distance c' text k
           = Return {| ids := [map fst hits];
                       documents := [map snd hits];
                       distances :=
                         [map (fun r => distance text (snd r)) hits] |}
           /\ length hits = Nat.min k (length c'))
    /\ (length c' = 3 -> docs_count = 3 ->
        exists hits,
          Mem.query distance c' text (n_results_of docs_count)
          = Return {| ids := [map fst hits];
                      documents := [map snd hits];
                      distances :=
                        [map (fun r => distance text (snd r)) hits] |}
          /\ length hits = 3
          /\ Mem.query distance c' text 10
             = Mem.query distance c' text (n_results_of docs_count)).
Proof.
  intros distance c content ft text run c' docs_count.
  assert (Hcount : docs_count <= length c')
    by apply mem_docs_count_stored.
  split; [reflexivity|].
  split; [exact Hcount|].
  split; [unfold n_results_of; lia|].
  split; [intros k Hk; unfold n_results_of; lia|].
  split; [apply search_calls|].
  split.
  { destruct (mem_query_count distance c' text (n_results_of docs_count))
      as [hits [Hq Hlen]].
    exists hits. split; [exact Hq|]. rewrite Hlen. unfold n_results_of.
    lia. }
  split; [intros k; apply mem_query_count|].
  intros Hstored Hdocs.
  destruct (mem_query_count distance c' text (n_results_of docs_count))
    as [hits [Hq Hlen]].
  exists hits. split; [exact Hq|].
  split; [rewrite Hlen, Hstored, Hdocs; reflexivity|].
  rewrite Hdocs. unfold Mem.query, n_results_of.
  rewrite !firstn_all2; [reflexivity | |]; rewrite ranked_length; simpl; lia.
Qed.

Lemma C3_query_requests_min_5_docs_count_witness :
  let c' :=
    fst (fst (process_and_store_content
                (H := mem_ops length_distance) [] three_paragraphs TXT)) in
  length c' = 3
  /\ exists hits,
       Mem.query length_distance c' (lit "a question") 3
       = Return {| ids := [map fst hits];
                   documents := [map snd hits];
                   distances :=
                     [map (fun r => length_distance (lit "a question")
                                                    (snd r)) hits] |}
       /\ length hits = 3
       /\ Mem.query length_distance c' (lit "a question") 10
          = Mem.query length_distance c' (lit "a question") 3.
Proof.
  split; [reflexivity|].
  exact (proj2 (proj2 (proj2 (proj2 (proj2 (proj2 (proj2
           (C3_query_requests_min_5_docs_count
              length_distance [] three_paragraphs TXT
              (lit "a question"))))))))
           eq_refl eq_refl).
Defined.

(** ** Relevance scores *)

Lemma result_lines_shown (docs : list str) :
  forall i dists,
    shown_scores (result_lines i docs dists)
    = map (fun d => 1 - d)%Q (firstn (length docs) dists)
    /\ shown_previews (result_lines i docs dists)
       = map preview_of (firstn (length dists) docs)
    /\ shown_ranks (result_lines i docs dists)
       = seq (i + 1) (Nat.min (length docs) (length dists)).
Proof.
  induction docs as [|doc docs IH]; intros i [|d dists]; simpl;
    try (repeat split; reflexivity).
  destruct (IH (S i) dists) as [Hs [Hp Hr]].
  rewrite Hs, Hp, Hr. repeat split.
Qed.

Lemma scores_descend (dists : list Q) :
  Sorted Qle dists ->
  Sorted (fun a b => b <= a)%Q (map (fun d => 1 - d)%Q dists).
Proof.
  induction 1 as [|d dists Hsorted IH Hhd]; simpl; constructor.
  - exact IH.
  - destruct Hhd as [|d' dists Hle]; simpl; constructor. lra.
Qed.

(** C4. When the query returns a non-empty list of documents with
    their distances, the results are shown in the order returned, ranked
    from 1, each with the relevance score [1 - d] of its distance [d] and a
    preview of its text; nothing is sorted again.  Hence if the distances
    come in ascending order, the scores shown never increase. *)
Theorem C4_scores_follow_returned_order :
  forall (results : query_result) (docs : list str) (more_docs : list (list str))
         (dists : list Q) (more_dists : list (list Q)),
    documents results = docs :: more_docs ->
    docs <> [] ->
    distances results = dists :: more_dists ->
    length dists = length docs ->
    display results = Return (result_lines 0 docs dists)
    /\ shown_scores (result_lines 0 docs dists) = map (fun d => 1 - d)%Q dists
    /\ shown_previews (result_lines 0 docs dists) = map preview_of docs
    /\ shown_ranks (result_lines 0 docs dists) = seq 1 (length docs)
    /\ (Sorted Qle dists ->
        Sorted (fun a b => b <= a)%Q
               (shown_scores (result_lines 0 docs dists))).
Proof.
  intros results docs more_docs dists more_dists Hdocs Hne Hdists Hlen.
  destruct (result_lines_shown docs 0 dists) as [Hs [Hp Hr]].
  rewrite <- Hlen, firstn_all in Hs.
  rewrite Hlen, firstn_all in Hp.
  rewrite Hlen, Nat.min_id in Hr.
  split.
  { unfold display. rewrite Hdocs, Hdists. now destruct docs. }
  split; [exact Hs|]. split; [exact Hp|]. split; [exact Hr|].
  intros Hsorted. rewrite Hs. now apply scores_descend.
Qed.

Lemma C4_scores_follow_returned_order_witness :
  let results :=
    {| ids := [[lit "txt_doc_2"; lit "txt_doc_1"]];
       documents := [[lit "second paragraph"; lit "first paragraph"]];
       distances := [[(1 # 10)%Q; (3 # 10)%Q]] |} in
  display results
  = Return [Print (ResultLine 1 (1 - (1 # 10))%Q (lit "second paragraph"));
            Print (ResultLine 2 (1 - (3 # 10))%Q (lit "first paragraph"))]
  /\ Sorted (fun a b => b <= a)%Q [(1 - (1 # 10))%Q; (1 - (3 # 10))%Q].
Proof.
  intros results.
  destruct (@C4_scores_follow_returned_order
              results
              [lit "second paragraph"; lit "first paragraph"] []
              [(1 # 10)%Q; (3 # 10)%Q] [])
    as [Hshow [_ [_ [_ Hsorted]]]];
    [reflexivity | discriminate | reflexivity | reflexivity |].
  split.
  - exact Hshow.
  - apply Hsorted.
    repeat constructor. unfold Qle. simpl. lia.
Defined.

(** ** The orchestrator *)

Section MainFacts.

Context {C : Type} `{Collection C}.

Variable w : world C.
Variable collection : C.
Hypothesis connected : connect w = Return collection.

Let ft := file_type_of_choice (user_choice w).
Let extracted := extract_content ft (pdf_file w) (txt_file w).

Lemma main_extraction_failed :
  extracted = Return None \/ extracted = Return (Some []) ->
  main w = [Print ExtractionFailed].
Proof.
  unfold main. rewrite connected. fold ft. fold extracted.
  now intros [-> | ->].
Qed.

Lemma main_nothing_stored (text : str) :
  extracted = Return (Some text) ->
  text <> [] ->
  snd (fst (process_and_store_content collection text ft)) = 0 ->
  main w
  = snd (process_and_store_content collection text ft)
    ++ [Print NoDocumentsStored].
Proof.
  intros Hext Htext Hzero.
  unfold main. rewrite connected. fold ft. fold extracted. rewrite Hext.
  cbn [content_truthy content_text].
  destruct text as [|ch text]; [contradiction|]. cbn [truthy negb].
  destruct (process_and_store_content collection (ch :: text) ft)
    as [[c' docs_count] log].
  cbn [fst snd] in *. now rewrite Hzero.
Qed.

Lemma main_stored (text : str) :
  extracted = Return (Some text) ->
  text <> [] ->
  snd (fst (process_and_store_content collection text ft)) <> 0 ->
  main w
  = snd (process_and_store_content collection text ft)
    ++ search (fst (fst (process_and_store_content collection text ft)))
              (user_query w)
              (snd (fst (process_and_store_content collection text ft))).
Proof.
  intros Hext Htext Hpos.
  unfold main. rewrite connected. fold ft. fold extracted. rewrite Hext.
  cbn [content_truthy content_text].
  destruct text as [|ch text]; [contradiction|]. cbn [truthy negb].
  destruct (process_and_store_content collection (ch :: text) ft)
    as [[c' docs_count] log].
  cbn [fst snd] in *.
  destruct (docs_count =? 0) eqn:Hz; [|reflexivity].
  apply Nat.eqb_eq in Hz. contradiction.
Qed.

(** The stages a run goes through, by what extraction and storage
    yield. *)
Lemma main_cases :
  (exists e, extracted = Raise e /\ main w = [Print (ErrorOccurred e)])
  \/ ((extracted = Return None \/ extracted = Return (Some []))
      /\ main w = [Print ExtractionFailed])
  \/ (exists text,
         extracted = Return (Some text) /\ text <> []
         /\ snd (fst (process_and_store_content collection text ft)) = 0
         /\ main w
            = snd (process_and_store_content collection text ft)
              ++ [Print NoDocumentsStored])
  \/ (exists text,
         extracted = Return (Some text) /\ text <> []
         /\ snd (fst (process_and_store_content collection text ft)) <> 0
         /\ main w
            = snd (process_and_store_content collection text ft)
              ++ search
                   (fst (fst (process_and_store_content collection text ft)))
                   (user_query w)
                   (snd (fst (process_and_store_content collection text ft)))).
Proof.
  destruct extracted as [[text|]|e] eqn:Hext.
  - destruct text as [|ch text].
    + right; left. split; [now right|].
      apply main_extraction_failed. now right.
    + destruct (Nat.eq_dec
                  (snd (fst (process_and_store_content collection
                                                       (ch :: text) ft))) 0)
        as [Hz|Hnz].
      * right; right; left. exists (ch :: text).
        repeat split; try assumption; try discriminate.
        now apply main_nothing_stored.
      * right; right; right. exists (ch :: text).
        repeat split; try assumption; try discriminate.
        now apply main_stored.
  - right; left. split; [now left|].
    apply main_extraction_failed. now left.
  - left. exists e. split; [reflexivity|].
    unfold main. rewrite connected. fold ft. fold extracted.
    now rewrite Hext.
Qed.

End MainFacts.

(** C9. Once connected, a run whose extraction yields nothing (the
    failure signal or an empty text) prints the extraction failure and
    does nothing else: nothing is split, inserted or queried.  A run
    whose storage step stores no record prints, after the log of that
    step, that no documents were stored, and makes no query.  Conversely
    a run that inserts has extracted a non-empty text, and a run that
    queries has moreover stored at least one record. *)
Theorem C9_no_stage_after_an_empty_one :
  forall (C : Type) (ops : Collection C) (w : world C) (collection : C),
    connect w = Return collection ->
    let ft := file_type_of_choice (user_choice w) in
    let extracted := extract_content ft (pdf_file w) (txt_file w) in
    (extracted = Return None \/ extracted = Return (Some []) ->
     main w = [Print ExtractionFailed])
    /\ (forall text,
           extracted = Return (Some text) ->
           text <> [] ->
           snd (fst (process_and_store_content collection text ft)) = 0 ->
           main w
           = snd (process_and_store_content collection text ft)
             ++ [Print NoDocumentsStored]
           /\ query_calls (main w) = [])
    /\ (add_calls (main w) <> [] ->
        exists text, extracted = Return (Some text) /\ text <> [])
    /\ (query_calls (main w) <> [] ->
        exists text,
          extracted = Return (Some text) /\ text <> []
          /\ snd (fst (process_and_store_content collection text ft)) <> 0).
Proof.
  intros C ops w collection Hconn ft extracted.
  split; [exact (@main_extraction_failed C ops w collection Hconn)|].
  split.
  { intros text Hext Htext Hzero.
    rewrite (@main_nothing_stored C ops w collection Hconn text Hext Htext
                                  Hzero).
    split; [reflexivity|].
    now rewrite query_calls_app, process_and_store_content_no_query. }
  destruct (@main_cases C ops w collection Hconn)
    as [[e [Hext Hmain]]
       |[[Hext Hmain]
        |[[text [Hext [Htext [Hzero Hmain]]]]
         |[text [Hext [Htext [Hpos Hmain]]]]]]];
    rewrite Hmain.
  - split; intros Hcalls; now destruct Hcalls.
  - split; intros Hcalls; now destruct Hcalls.
  - split.
    + intros _. now exists text.
    + rewrite query_calls_app, process_and_store_content_no_query.
      intros Hcalls. now destruct Hcalls.
  - split; intros _; exists text; auto.
Qed.

Lemma C9_no_stage_after_an_empty_one_witness :
  main (H := mem_ops length_distance) (txt_world [] (lit "what is it?"))
  = [Print ExtractionFailed]
  /\ main (H := mem_ops length_distance)
          (txt_world (ascii_bytes "too short") (lit "what is it?"))
     = [Print (Storing TXT); Print (Stored 0); Print NoDocumentsStored].
Proof.
  split.
  - destruct (@C9_no_stage_after_an_empty_one
                Mem.t (mem_ops length_distance)
                (txt_world [] (lit "what is it?")) [] eq_refl)
      as [Hfailed _].
    apply Hfailed. right. reflexivity.
  - destruct (@C9_no_stage_after_an_empty_one
                Mem.t (mem_ops length_distance)
                (txt_world (ascii_bytes "too short") (lit "what is it?"))
                [] eq_refl)
      as [_ [Hnone _]].
    destruct (Hnone (lit "too short")) as [Hmain _].
    + reflexivity.
    + discriminate.
    + reflexivity.
    + exact Hmain.
Defined.

(** ** Paragraphs and the length filter *)

Lemma lstrip_head (s : str) (c : N) (t : str) :
  lstrip s = c :: t -> isspace c = false.
Proof.
  induction s as [|a s IH]; simpl; [discriminate|].
  destruct (isspace a) eqn:Ha; [exact IH|].
  intros Heq. injection Heq as <- _. exact Ha.
Qed.

(** A stripped, non-empty text ends with a character that is not
    whitespace. *)
Lemma strip_fixed_last (p : str) :
  strip p = p -> p <> [] ->
  exists q c, p = q ++ [c] /\ isspace c = false.
Proof.
  unfold strip, rstrip. intros Hfix Hne.
  destruct (lstrip (rev (lstrip p))) as [|c t] eqn:Hl.
  - simpl in Hfix. congruence.
  - exists (rev t), c. split; [now rewrite <- Hfix|].
    now apply lstrip_head in Hl.
Qed.

Lemma startswith_blank_line (c : N) (q rest : str) :
  startswith (nl ++ nl) (c :: q ++ nl ++ nl ++ rest)
  = (10 =? c)%N
    && match q with
       | [] => true
       | d :: _ => (10 =? d)%N
       end.
Proof.
  simpl. destruct q as [|d q]; simpl; now rewrite ?andb_true_r.
Qed.

Lemma contains_cons (sep : str) (c : N) (s : str) :
  contains sep (c :: s) = startswith sep (c :: s) || contains sep s.
Proof. reflexivity. Qed.

(** Scanning a text that holds no blank line and does not end with a
    line feed, followed by a blank line: the text is the next piece. *)
Lemma split_from_piece (p : str) :
  forall cur rest,
    contains (nl ++ nl) p = false ->
    (forall q c, p = q ++ [c] -> c <> 10%N) ->
    split_from (nl ++ nl) 0 cur (p ++ nl ++ nl ++ rest)
    = (rev cur ++ p) :: split_from (nl ++ nl) 0 [] rest.
Proof.
  induction p as [|c p IH]; intros cur rest Hno Hlast.
  - simpl. now rewrite app_nil_r.
  - cbn [app split_from]. rewrite startswith_blank_line.
    assert (Hhere : (10 =? c)%N
                    && match p with
                       | [] => true
                       | d :: _ => (10 =? d)%N
                       end = false).
    { destruct p as [|d p].
      - rewrite andb_true_r. apply N.eqb_neq. intros <-.
        now apply (Hlast [] 10%N).
      - simpl in Hno. apply orb_false_iff in Hno as [Hno _].
        now rewrite andb_true_r in Hno. }
    rewrite Hhere, IH.
    + simpl. now rewrite <- app_assoc.
    + simpl in Hno. now apply orb_false_iff in Hno as [_ Hno].
    + intros q c' Heq. apply (Hlast (c :: q) c'). simpl. now rewrite Heq.
Qed.

Lemma split_from_last (p : str) :
  forall cur,
    contains (nl ++ nl) p = false ->
    split_from (nl ++ nl) 0 cur p = [rev cur ++ p].
Proof.
  induction p as [|c p IH]; intros cur Hno.
  - simpl. now rewrite app_nil_r.
  - rewrite contains_cons in Hno. apply orb_false_iff in Hno as [Hhere Hno].
    cbn [split_from]. rewrite Hhere, IH by assumption.
    simpl. now rewrite <- app_assoc.
Qed.

Lemma paragraph_last (p : str) :
  paragraph p -> forall q c, p = q ++ [c] -> c <> 10%N.
Proof.
  intros [Hne [Hfix _]] q c Heq.
  destruct (strip_fixed_last Hfix Hne) as [q' [c' [Heq' Hsp]]].
  rewrite Heq in Heq'. apply app_inj_tail in Heq' as [_ ->].
  intros ->. discriminate Hsp.
Qed.

(** Splitting at blank lines gives back the paragraphs a text is made
    of. *)
Lemma split_join_paragraphs (ps : list str) :
  ps <> [] -> Forall paragraph ps ->
  split (nl ++ nl) (join (nl ++ nl) ps) = ps.
Proof.
  unfold split. induction ps as [|p ps IH]; [congruence|].
  intros _ Hall. inversion Hall as [|? ? Hp Hps]; subst.
  destruct ps as [|p' ps].
  - simpl join. rewrite split_from_last; [reflexivity | apply Hp].
  - change (join (nl ++ nl) (p :: p' :: ps))
      with (p ++ nl ++ nl ++ join (nl ++ nl) (p' :: ps)).
    rewrite split_from_piece;
      [| apply Hp | now apply paragraph_last].
    simpl rev. simpl app at 1. f_equal. apply IH; [discriminate | exact Hps].
Qed.

Lemma split_sections_paragraphs (ps : list str) :
  ps <> [] -> Forall paragraph ps ->
  split_sections (join (nl ++ nl) ps) TXT = ps.
Proof.
  intros Hne Hall. unfold split_sections.
  rewrite split_join_paragraphs by assumption.
  clear Hne. induction Hall as [|p ps [Hp [Hfix _]] Hall IH];
    [reflexivity|].
  simpl. rewrite Hfix. destruct p as [|c p]; [congruence|].
  simpl. rewrite Hfix. f_equal. exact IH.
Qed.

Lemma filter_long_all (l : list str) :
  Forall (fun p => 10 < length p) l ->
  filter (fun s => 10 <? length s) l = l.
Proof.
  induction 1 as [|p l Hp _ IH]; simpl; [reflexivity|].
  apply Nat.ltb_lt in Hp. now rewrite Hp, IH.
Qed.

Lemma filter_long_but_one (before after : list str) (short : str) :
  length short <= 10 ->
  Forall (fun p => 10 < length p) (before ++ after) ->
  filter (fun s => 10 <? length s) (before ++ short :: after)
  = before ++ after.
Proof.
  intros Hshort Hlong. apply Forall_app in Hlong as [Hb Ha].
  rewrite filter_app. simpl.
  assert (Hs : (10 <? length short) = false) by (apply Nat.ltb_ge; lia).
  now rewrite Hs, !filter_long_all.
Qed.

(** On a new collection a run stores the sections longer than 10
    characters, and returns their number. *)
Lemma mem_run_stores_long_sections (distance : str -> str -> Q)
      (content : str) (ft : file_type) :
  let run :=
    process_and_store_content (H := mem_ops distance) [] content ft in
  map snd (fst (fst run))
  = filter (fun s => 10 <? length s) (split_sections content ft)
  /\ snd (fst run)
     = length (filter (fun s => 10 <? length s) (split_sections content ft)).
Proof.
  intros run. subst run. rewrite mem_run_on_empty. cbn [fst snd].
  rewrite <- (requests_texts ft (split_sections content ft) 0).
  now rewrite length_map.
Qed.

(** C5. The text is split into sections, each trimmed, the empty
    ones left out; of these, exactly the sections longer than 10
    characters are handed to the collection, in order, and on a new
    collection exactly they are stored: a section of 10 characters or
    fewer is dropped.  Hence a text file made of paragraphs of which one
    has at most 10 characters (5, say) and the others more than 10 yields
    one record per other paragraph: 2 records for 3 paragraphs. *)
Theorem C5_short_sections_are_dropped :
  forall (content : str) (ft : file_type),
    let sections := split_sections content ft in
    (forall (C : Type) (ops : Collection C) (c : C),
        map snd (add_calls (snd (process_and_store_content c content ft)))
        = filter (fun s => 10 <? length s) sections)
    /\ (forall distance,
           let run :=
             process_and_store_content (H := mem_ops distance)
                                       [] content ft in
           map snd (fst (fst run)) = filter (fun s => 10 <? length s) sections
           /\ snd (fst run)
              = length (filter (fun s => 10 <? length s) sections))
    /\ split_sections content TXT
       = map strip (filter (fun p => truthy (strip p))
                           (split (nl ++ nl) content))
    /\ split_sections content PDF
       = map strip (filter (fun p => truthy (strip p))
                           (split (lit "Page ") content))
    /\ (forall distance (before after : list str) (short : str),
           Forall paragraph (before ++ short :: after) ->
           length short <= 10 ->
           Forall (fun p => 10 < length p) (before ++ after) ->
           let text := join (nl ++ nl) (before ++ short :: after) in
           let run :=
             process_and_store_content (H := mem_ops distance) [] text TXT in
           split_sections text TXT = before ++ short :: after
           /\ map snd (fst (fst run)) = before ++ after
           /\ snd (fst run) = length before + length after).
Proof.
  intros content ft sections.
  split.
  { intros C ops c. rewrite process_and_store_content_add_calls.
    apply requests_texts. }
  split; [intros distance; apply mem_run_stores_long_sections|].
  split; [reflexivity|]. split; [reflexivity|].
  intros distance before after short Hpar Hshort Hlong text run.
  assert (Hsec : split_sections text TXT = before ++ short :: after).
  { apply split_sections_paragraphs; [now destruct before | exact Hpar]. }
  destruct (mem_run_stores_long_sections distance text TXT) as [Htexts Hn].
  fold run in Htexts, Hn.
  rewrite Hsec, filter_long_but_one in Htexts, Hn by assumption.
  rewrite length_app in Hn. auto.
Qed.

Lemma C5_short_sections_are_dropped_witness :
  let text :=
    lit "The first paragraph." ++ nl ++ nl ++ lit "Short" ++ nl ++ nl
    ++ lit "The third paragraph." in
  split_sections text TXT
  = [lit "The first paragraph."; lit "Short"; lit "The third paragraph."]
  /\ snd (fst (process_and_store_content
                 (H := mem_ops length_distance) [] text TXT)) = 2.
Proof.
  intros text.
  destruct (C5_short_sections_are_dropped text TXT)
    as [_ [_ [_ [_ Hscenario]]]].
  destruct (Hscenario length_distance
                      [lit "The first paragraph."]
                      [lit "The third paragraph."] (lit "Short"))
    as [Hsec [_ Hn]].
  - repeat constructor; discriminate.
  - simpl. lia.
  - repeat constructor; simpl; lia.
  - split; [exact Hsec | exact Hn].
Defined.

(** ** Scenarios *)

(** An insertion that fails does not stop the following ones. *)
Example middle_insertion_fails :
  process_and_store_content
    (H := failing_insert_ops (lit "txt_doc_2")) []
    (lit "The first paragraph." ++ nl ++ nl ++ lit "The second paragraph."
     ++ nl ++ nl ++ lit "The third paragraph.")
    TXT
  = ([(lit "txt_doc_1", lit "The first paragraph.");
      (lit "txt_doc_3", lit "The third paragraph.")],
     2,
     [Print (Storing TXT);
      AddCall (lit "txt_doc_1") (lit "The first paragraph.");
      Print (Added (lit "txt_doc_1"));
      AddCall (lit "txt_doc_2") (lit "The second paragraph.");
      Print (ErrorAdding (lit "txt_doc_2") (OtherError "embedding failed"));
      AddCall (lit "txt_doc_3") (lit "The third paragraph.");
      Print (Added (lit "txt_doc_3"));
      Print (Stored 2)]).
Proof. vm_compute. reflexivity. Qed.

(** A file of three paragraphs: three records, three results asked
    for and shown. *)
Example three_records_three_results :
  let trace :=
    main (H := mem_ops length_distance)
         (txt_world
            (ascii_bytes "The first paragraph."
             ++ [x0a; x0a] ++ ascii_bytes "The second paragraph, longer."
             ++ [x0d; x0a; x0d; x0a] ++ ascii_bytes "The third one, then.")
            (lit "Which paragraph is it?")) in
  map fst (add_calls trace)
  = [lit "txt_doc_1"; lit "txt_doc_2"; lit "txt_doc_3"]
  /\ query_calls trace = [(lit "Which paragraph is it?", 3)]
  /\ shown_ranks trace = [1; 2; 3]
  /\ shown_previews trace
     = [lit "The first paragraph."; lit "The third one, then.";
        lit "The second paragraph, longer."].
Proof. vm_compute. repeat split. Qed.

(** The upserts of [app.py] can be run again: nothing fails and the
    collection is the same. *)
Example app_store_twice :
  app_store (H := mem_ops length_distance) [] app_documents
  = Return app_documents
  /\ app_store (H := mem_ops length_distance) app_documents app_documents
     = Return app_documents.
Proof. vm_compute. split; reflexivity. Qed.

(** * Further properties *)

(** ** Trimming *)

Lemma lstrip_app_nonspace (x : str) (c : N) (y : str) :
  isspace c = false -> lstrip (x ++ c :: y) = lstrip x ++ c :: y.
Proof.
  intros Hc. induction x as [|a x IH]; simpl.
  - now rewrite Hc.
  - destruct (isspace a); [exact IH | reflexivity].
Qed.

Lemma lstrip_idempotent (s : str) : lstrip (lstrip s) = lstrip s.
Proof.
  induction s as [|a s IH]; simpl; [reflexivity|].
  destruct (isspace a) eqn:Ha; [exact IH|]. simpl. now rewrite Ha.
Qed.

Lemma rstrip_cons_nonspace (c : N) (t : str) :
  isspace c = false -> rstrip (c :: t) = c :: rstrip t.
Proof.
  intros Hc. unfold rstrip. simpl rev.
  rewrite lstrip_app_nonspace by exact Hc.
  now rewrite rev_app_distr.
Qed.

Lemma rstrip_idempotent (s : str) : rstrip (rstrip s) = rstrip s.
Proof.
  unfold rstrip. now rewrite rev_involutive, lstrip_idempotent.
Qed.

(** Trimming a trimmed text changes nothing. *)
Lemma strip_idempotent (s : str) : strip (strip s) = strip s.
Proof.
  unfold strip.
  destruct (lstrip s) as [|c t] eqn:Hl; [reflexivity|].
  apply lstrip_head in Hl as Hc.
  rewrite rstrip_cons_nonspace by exact Hc.
  simpl lstrip. rewrite Hc.
  rewrite rstrip_cons_nonspace by exact Hc.
  now rewrite rstrip_idempotent.
Qed.

Lemma strip_truthy (s : str) : truthy (strip s) = true <-> strip s <> [].
Proof. destruct (strip s); simpl; split; congruence. Qed.

(** ** The console readers *)

(** X1. [get_user_choice] refuses, with one notice each, the lines
    typed before the first one that reads '1' or '2' once trimmed, and
    returns that trimmed line, leaving the following lines unread; its
    value is never anything but '1' or '2'.  When no line qualifies the
    input runs out and [EOFError] is raised. *)
Theorem X1_get_user_choice_first_valid_entry :
  forall lines : list str,
    let '(r, unread, out) := get_user_choice lines in
    exists refused,
      Forall (fun l => strip l <> lit "1" /\ strip l <> lit "2") refused
      /\ out = map (fun _ => InvalidChoice) refused
      /\ ((exists line,
              lines = refused ++ line :: unread
              /\ r = Return (strip line)
              /\ (strip line = lit "1" \/ strip line = lit "2"))
          \/ (lines = refused /\ unread = [] /\ r = Raise EOFError)).
Proof.
  induction lines as [|line rest IH]; simpl.
  - exists []. split; [constructor|]. split; [reflexivity|]. now right.
  - destruct (str_eqb (strip line) (lit "1") || str_eqb (strip line) (lit "2"))
      eqn:Hvalid.
    + exists []. split; [constructor|]. split; [reflexivity|]. left.
      exists line. split; [reflexivity|]. split; [reflexivity|].
      apply orb_true_iff in Hvalid as [H1|H2];
        [left | right]; now apply str_eqb_eq.
    + destruct (get_user_choice rest) as [[r unread] out].
      destruct IH as [refused [Hall [Hout Hcases]]].
      apply orb_false_iff in Hvalid as [H1 H2].
      exists (line :: refused). split.
      { constructor; [|exact Hall]. split; intros Heq;
          apply str_eqb_eq in Heq; congruence. }
      split; [simpl; now rewrite Hout|].
      destruct Hcases as [[l [-> [-> Hl]]] | [-> [-> ->]]].
      * left. exists l. repeat split; assumption.
      * right. repeat split.
Qed.

(** X2. [get_user_query] refuses, with one notice each, the lines
    that are blank once trimmed and returns the first other line,
    trimmed: its value is never empty and carries no whitespace at
    either end.  When every line is blank the input runs out and
    [EOFError] is raised. *)
Theorem X2_get_user_query_first_nonblank_entry :
  forall lines : list str,
    let '(r, unread, out) := get_user_query lines in
    exists refused,
      Forall whitespace_only refused
      /\ out = map (fun _ => InvalidQuestion) refused
      /\ ((exists line,
              lines = refused ++ line :: unread
              /\ r = Return (strip line)
              /\ strip line <> []
              /\ strip (strip line) = strip line)
          \/ (lines = refused /\ unread = [] /\ r = Raise EOFError)).
Proof.
  induction lines as [|line rest IH]; simpl.
  - exists []. split; [constructor|]. split; [reflexivity|]. now right.
  - destruct (truthy (strip line)) eqn:Hq.
    + exists []. split; [constructor|]. split; [reflexivity|]. left.
      exists line. split; [reflexivity|]. split; [reflexivity|].
      split; [now apply strip_truthy | apply strip_idempotent].
    + destruct (get_user_query rest) as [[r unread] out].
      destruct IH as [refused [Hall [Hout Hcases]]].
      exists (line :: refused). split.
      { constructor; [|exact Hall]. now apply strip_nil, truthy_nil. }
      split; [simpl; now rewrite Hout|].
      destruct Hcases as [[l [-> [-> Hl]]] | [-> [-> ->]]].
      * left. exists l. repeat split; apply Hl.
      * right. repeat split.
Qed.

(** X3. [get_file_path] refuses, with one notice each, the entries
    naming no existing file, and stops at the first other line: a blank
    one gives the sample file of the repository, whose existence is not
    checked; a path that exists is returned trimmed; an error of the
    existence test is raised.  So a path typed and returned always
    exists.  When every entry is refused the input runs out and
    [EOFError] is raised. *)
Theorem X3_get_file_path_default_or_existing :
  forall (exists_ : str -> result bool) (lines : list str),
    let '(r, unread, out) := get_file_path exists_ lines in
    exists refused,
      Forall (fun l => strip l <> [] /\ exists_ (strip l) = Return false)
             refused
      /\ ((exists line,
              lines = refused ++ line :: unread
              /\ ((strip line = [] /\ r = Return DefaultSample
                   /\ out = map (fun l => FileNotFound (strip l)) refused
                            ++ [UsingDefaultFile])
                  \/ (strip line <> []
                      /\ exists_ (strip line) = Return true
                      /\ r = Return (Typed (strip line))
                      /\ out = map (fun l => FileNotFound (strip l)) refused)
                  \/ (strip line <> []
                      /\ exists e, exists_ (strip line) = Raise e
                                   /\ r = Raise e
                                   /\ out = map (fun l => FileNotFound (strip l))
                                                refused)))
          \/ (lines = refused /\ unread = [] /\ r = Raise EOFError
              /\ out = map (fun l => FileNotFound (strip l)) refused)).
Proof.
  intros exists_. induction lines as [|line rest IH]; simpl.
  - exists []. split; [constructor|]. right. repeat split.
  - destruct (truthy (strip line)) eqn:Hq; simpl.
    + apply strip_truthy in Hq.
      destruct (exists_ (strip line)) as [[|]|e] eqn:Hex.
      * exists []. split; [constructor|]. left. exists line.
        split; [reflexivity|]. right; left. repeat split; assumption.
      * destruct (get_file_path exists_ rest) as [[r unread] out].
        destruct IH as [refused [Hall Hcases]].
        exists (line :: refused).
        split; [constructor; [now split | exact Hall]|].
        destruct Hcases
          as [[l [-> [[Hl [-> ->]] | [[Hl [Hex' [-> ->]]]
                                      | [Hl [e [Hex' [-> ->]]]]]]]]
             | [-> [-> [-> ->]]]].
        -- left. exists l. split; [reflexivity|]. left. repeat split.
           exact Hl.
        -- left. exists l. split; [reflexivity|]. right; left.
           repeat split; assumption.
        -- left. exists l. split; [reflexivity|]. right; right.
           split; [exact Hl|]. exists e. repeat split. exact Hex'.
        -- right. repeat split.
      * exists []. split; [constructor|]. left. exists line.
        split; [reflexivity|]. right; right. split; [exact Hq|].
        exists e. repeat split. exact Hex.
    + apply truthy_nil in Hq.
      exists []. split; [constructor|]. left. exists line.
      split; [reflexivity|]. left. repeat split. exact Hq.
Qed.

Example get_user_choice_skips_bad_entries :
  get_user_choice [lit "3"; lit "pdf"; lit " 2 "; lit "1"]
  = (Return (lit "2"), [lit "1"], [InvalidChoice; InvalidChoice]).
Proof. reflexivity. Qed.

Example get_file_path_blank_is_default :
  get_file_path (fun _ => Return false) [lit "missing.txt"; lit "  "; lit "x"]
  = (Return DefaultSample, [lit "x"],
     [FileNotFound (lit "missing.txt"); UsingDefaultFile]).
Proof. reflexivity. Qed.

(** ** Sections *)

(** X4. Whatever the text and the file type, no section is empty
    and none has whitespace at either end; every text handed to the
    collection is such a section and has more than 10 characters. *)
Theorem X4_sections_are_trimmed_and_nonempty :
  forall (content : str) (ft : file_type),
    Forall (fun s => s <> [] /\ strip s = s) (split_sections content ft)
    /\ (forall (C : Type) (ops : Collection C) (c : C),
           Forall (fun s => 10 < length s /\ s <> [] /\ strip s = s)
                  (map snd (add_calls
                              (snd (process_and_store_content c content ft))))).
Proof.
  intros content ft.
  assert (Hsec : Forall (fun s => s <> [] /\ strip s = s)
                        (split_sections content ft)).
  { assert (Hgen : forall pieces,
               Forall (fun s => s <> [] /\ strip s = s)
                      (map strip (filter (fun p => truthy (strip p)) pieces))).
    { induction pieces as [|p pieces IH]; simpl; [constructor|].
      destruct (truthy (strip p)) eqn:Hp; [|exact IH].
      simpl. constructor; [|exact IH].
      split; [now apply strip_truthy | apply strip_idempotent]. }
    destruct ft; apply Hgen. }
  split; [exact Hsec|].
  intros C ops c. rewrite process_and_store_content_add_calls, requests_texts.
  induction Hsec as [|s sections [Hne Hfix] _ IH]; simpl; [constructor|].
  destruct (10 <? length s) eqn:Hlong; [|exact IH].
  constructor; [|exact IH]. apply Nat.ltb_lt in Hlong. auto.
Qed.

(** *** Splitting and joining *)

Lemma split_from_skip (sep a : str) :
  forall cur rest,
    split_from sep (length a) cur (a ++ rest) = split_from sep 0 cur rest.
Proof.
  induction a as [|c a IH]; intros cur rest; [reflexivity | apply IH].
Qed.

Lemma startswith_app (p : str) :
  forall s, startswith p s = true -> exists rest, s = p ++ rest.
Proof.
  induction p as [|a p IH]; intros s Hs.
  - now exists s.
  - destruct s as [|b s]; [discriminate|]. simpl in Hs.
    apply andb_true_iff in Hs as [Hab Hs].
    apply N.eqb_eq in Hab as ->. apply IH in Hs as [rest ->].
    now exists rest.
Qed.

Lemma split_from_nonempty (sep : str) (s : str) :
  forall k cur, split_from sep k cur s <> [].
Proof.
  induction s as [|c s IH]; intros k cur; simpl; [discriminate|].
  destruct k; [|apply IH].
  destruct (startswith sep (c :: s)); [discriminate | apply IH].
Qed.

Lemma join_cons (sep x : str) (l : list str) :
  l <> [] -> join sep (x :: l) = x ++ sep ++ join sep l.
Proof. destruct l; [congruence | reflexivity]. Qed.

Lemma join_split_from (sep : str) :
  sep <> [] ->
  forall n s cur,
    length s <= n ->
    join sep (split_from sep 0 cur s) = rev cur ++ s.
Proof.
  intros Hsep. induction n as [|n IH]; intros s cur Hlen.
  - destruct s; [|simpl in Hlen; lia]. simpl. now rewrite app_nil_r.
  - destruct s as [|c s]; [simpl; now rewrite app_nil_r|].
    cbn [split_from].
    destruct (startswith sep (c :: s)) eqn:Hhere.
    + apply startswith_app in Hhere as [rest Hrest].
      destruct sep as [|c0 sep']; [congruence|].
      injection Hrest as <- ->.
      rewrite join_cons by apply split_from_nonempty.
      cbn [length]. rewrite Nat.sub_succ, Nat.sub_0_r, split_from_skip.
      rewrite IH.
      * reflexivity.
      * simpl in Hlen. rewrite length_app in Hlen. lia.
    + rewrite IH by (simpl in Hlen; lia).
      simpl. now rewrite <- app_assoc.
Qed.

(** Joining the pieces of a split with the separator gives the text
    back. *)
Lemma join_split (sep s : str) :
  sep <> [] -> join sep (split sep s) = s.
Proof.
  intros Hsep. unfold split.
  now rewrite (join_split_from Hsep (n := length s)).
Qed.

(** *** What segmentation keeps *)

Lemma nonspace_app (a b : str) : nonspace (a ++ b) = nonspace a ++ nonspace b.
Proof. apply filter_app. Qed.

Lemma nonspace_whitespace_only (s : str) :
  whitespace_only s -> nonspace s = [].
Proof.
  unfold whitespace_only, nonspace.
  induction s as [|c s IH]; simpl; [reflexivity|].
  intros Hall. apply andb_true_iff in Hall as [Hc Hs].
  rewrite Hc. simpl. now apply IH.
Qed.

Lemma nonspace_lstrip (s : str) : nonspace (lstrip s) = nonspace s.
Proof.
  induction s as [|c s IH]; simpl; [reflexivity|].
  destruct (isspace c) eqn:Hc; simpl; [exact IH | now rewrite Hc].
Qed.

Lemma nonspace_rev (s : str) : nonspace (rev s) = rev (nonspace s).
Proof.
  induction s as [|c s IH]; simpl; [reflexivity|].
  rewrite nonspace_app, IH. simpl.
  destruct (negb (isspace c)); simpl; [reflexivity | now rewrite app_nil_r].
Qed.

(** Trimming removes whitespace only. *)
Lemma nonspace_strip (s : str) : nonspace (strip s) = nonspace s.
Proof.
  unfold strip, rstrip.
  now rewrite nonspace_rev, nonspace_lstrip, nonspace_rev, rev_involutive,
    nonspace_lstrip.
Qed.

Lemma nonspace_join (sep : str) (l : list str) :
  whitespace_only sep ->
  nonspace (join sep l) = concat (map nonspace l).
Proof.
  intros Hsep. induction l as [|x l IH]; [reflexivity|].
  destruct l as [|y l].
  - simpl. now rewrite app_nil_r.
  - rewrite join_cons by discriminate.
    rewrite !nonspace_app, (nonspace_whitespace_only Hsep), IH.
    reflexivity.
Qed.

Lemma nonspace_concat (l : list str) :
  nonspace (concat l) = concat (map nonspace l).
Proof.
  induction l as [|x l IH]; simpl; [reflexivity|].
  now rewrite nonspace_app, IH.
Qed.

Lemma nonspace_kept_pieces (pieces : list str) :
  concat (map nonspace
              (map strip (filter (fun p => truthy (strip p)) pieces)))
  = concat (map nonspace pieces).
Proof.
  induction pieces as [|p pieces IH]; simpl; [reflexivity|].
  destruct (truthy (strip p)) eqn:Hp; simpl.
  - now rewrite nonspace_strip, IH.
  - apply truthy_nil, strip_nil, nonspace_whitespace_only in Hp.
    now rewrite Hp, IH.
Qed.

(** X5. Splitting a text file into sections loses and reorders no
    character other than whitespace: the characters of the sections
    that are not whitespace, read in order, are those of the text. *)
Theorem X5_txt_sections_keep_all_but_whitespace :
  forall content : str,
    nonspace (concat (split_sections content TXT)) = nonspace content.
Proof.
  intros content. unfold split_sections.
  rewrite nonspace_concat, nonspace_kept_pieces.
  rewrite <- (@nonspace_join (nl ++ nl)) by reflexivity.
  now rewrite join_split.
Qed.

(** ** From PDF pages to sections *)

Lemma digits_of_uint (u : Decimal.uint) :
  Forall (fun c => c <> 80%N) (lit (NilEmpty.string_of_uint u)).
Proof.
  induction u; simpl; constructor; try assumption; discriminate.
Qed.

Lemma str_of_nat_no_P (n : nat) : Forall (fun c => c <> 80%N) (str_of_nat n).
Proof. apply digits_of_uint. Qed.

Lemma startswith_page_head (c : N) (s : str) :
  c <> 80%N -> startswith (lit "Page ") (c :: s) = false.
Proof.
  intros Hc. simpl. destruct c as [|p]; [reflexivity|].
  destruct (Pos.eqb_spec 80 p) as [<-|Hp]; [congruence | reflexivity].
Qed.

(** Characters other than 'P' are read into the current piece. *)
Lemma split_page_push (a : str) :
  forall cur rest,
    Forall (fun c => c <> 80%N) a ->
    split_from (lit "Page ") 0 cur (a ++ rest)
    = split_from (lit "Page ") 0 (rev a ++ cur) rest.
Proof.
  induction a as [|c a IH]; intros cur rest Hall; [reflexivity|].
  inversion Hall as [|? ? Hc Ha]; subst.
  cbn [app split_from]. rewrite startswith_page_head by exact Hc.
  rewrite IH by exact Ha. simpl. now rewrite <- app_assoc.
Qed.

(** The marker holds no line feed: it cannot begin in a text and run
    over a line feed that follows it. *)
Lemma startswith_page_nl (a rest : str) :
  startswith (lit "Page ") (a ++ nl ++ rest) = true ->
  startswith (lit "Page ") a = true.
Proof.
  destruct a as [|c1 [|c2 [|c3 [|c4 [|c5 a]]]]]; simpl;
    repeat match goal with
           | |- context [match ?c with N0 => _ | Npos _ => _ end] =>
               destruct c
           | |- context [Pos.eqb ?k ?p] => destruct (Pos.eqb k p)
           end; simpl; auto; discriminate.
Qed.

Lemma contains_suffix (sep : str) (a b : str) :
  contains sep (a ++ b) = false -> contains sep b = false.
Proof.
  induction a as [|c a IH]; [auto|].
  cbn [app]. rewrite contains_cons. intros Hno.
  apply orb_false_iff in Hno as [_ Hno]. now apply IH.
Qed.

Lemma contains_here (sep s : str) :
  contains sep s = false -> startswith sep s = false.
Proof.
  destruct s as [|c s]; simpl; intros Hno;
    now apply orb_false_iff in Hno as [Hno _].
Qed.

(** A text without marker, followed by a line feed, is read into the
    current piece. *)
Lemma split_page_push_text (t : str) :
  forall cur rest,
    contains (lit "Page ") t = false ->
    split_from (lit "Page ") 0 cur (t ++ nl ++ rest)
    = split_from (lit "Page ") 0 (rev t ++ cur) (nl ++ rest).
Proof.
  induction t as [|c t IH]; intros cur rest Hno; [reflexivity|].
  assert (Hhere : startswith (lit "Page ") ((c :: t) ++ nl ++ rest) = false).
  { destruct (startswith (lit "Page ") ((c :: t) ++ nl ++ rest)) eqn:Hs;
      [|reflexivity].
    apply startswith_page_nl in Hs. apply contains_here in Hno. congruence. }
  cbn [app split_from] in *. rewrite Hhere.
  rewrite IH by exact (contains_suffix (lit "Page ") [c] t Hno).
  simpl. now rewrite <- app_assoc.
Qed.

Lemma split_page_push_body (n : nat) (t : str) :
  contains (lit "Page ") t = false ->
  forall cur rest,
    split_from (lit "Page ") 0 cur (page_body n t ++ rest)
    = split_from (lit "Page ") 0 (rev (page_body n t) ++ cur) rest.
Proof.
  intros Hno cur rest. unfold page_body.
  replace ((str_of_nat n ++ lit ":" ++ nl ++ t ++ nl ++ nl) ++ rest)
    with ((str_of_nat n ++ lit ":" ++ nl) ++ t ++ nl ++ (nl ++ rest))
    by (now rewrite <- !app_assoc).
  rewrite split_page_push.
  2:{ apply Forall_app. split; [apply str_of_nat_no_P|].
      repeat constructor; discriminate. }
  rewrite split_page_push_text by exact Hno.
  replace (nl ++ nl ++ rest) with ((nl ++ nl) ++ rest) by reflexivity.
  rewrite split_page_push by (repeat constructor; discriminate).
  f_equal. rewrite !rev_app_distr, <- !app_assoc. reflexivity.
Qed.

Lemma split_page_marker (cur rest : str) :
  split_from (lit "Page ") 0 cur (lit "Page " ++ rest)
  = rev cur :: split_from (lit "Page ") 0 [] rest.
Proof. reflexivity. Qed.

(** A text made of markers, each followed by the body of a page, is
    split into an empty first piece and the bodies. *)
Lemma split_page_bodies (pages : list (nat * str)) :
  Forall (fun p => contains (lit "Page ") (snd p) = false) pages ->
  forall cur,
    split_from (lit "Page ") 0 cur
               (concat (map (fun p => lit "Page "
                                      ++ page_body (fst p + 1) (snd p))
                            pages))
    = rev cur :: map (fun p => page_body (fst p + 1) (snd p)) pages.
Proof.
  induction 1 as [|p pages Hp _ IH]; intros cur; [reflexivity|].
  cbn [map concat]. rewrite <- app_assoc, split_page_marker.
  rewrite split_page_push_body by exact Hp.
  rewrite IH. now rewrite app_nil_r, rev_involutive.
Qed.

Lemma page_blocks_printed (page_texts : list str) :
  forall first,
    page_blocks first page_texts
    = concat (map (fun p => lit "Page " ++ page_body (fst p + 1) (snd p))
                  (printed_pages first page_texts)).
Proof.
  induction page_texts as [|t ts IH]; intros first; [reflexivity|].
  rewrite page_blocks_cons, IH. unfold printed_pages. cbn [length seq combine].
  cbn [filter snd]. unfold page_block.
  destruct (truthy (strip t)); reflexivity.
Qed.

Lemma page_body_not_blank (n : nat) (t : str) :
  truthy (strip (page_body n t)) = true.
Proof.
  apply strip_truthy. intros Hnil. apply strip_nil in Hnil.
  unfold page_body in Hnil.
  apply whitespace_only_app in Hnil as [_ Hnil].
  discriminate Hnil.
Qed.

Lemma printed_pages_no_marker (page_texts : list str) :
  Forall (fun t => contains (lit "Page ") t = false) page_texts ->
  forall first,
    Forall (fun p => contains (lit "Page ") (snd p) = false)
           (printed_pages first page_texts).
Proof.
  unfold printed_pages.
  induction 1 as [|t ts Ht _ IH]; intros first; [constructor|].
  cbn [length seq combine filter snd].
  destruct (truthy (strip t)); [constructor; [exact Ht|]|]; apply IH.
Qed.

(** X6. When no page text holds the marker "Page ", extracting a PDF
    and splitting the text extracted gives exactly one section per page
    that holds more than whitespace, in page order: the page number, a
    colon, a line feed and the page text, trimmed.  The number in the id
    of a record is the rank of its section among these, not its page
    number. *)
Theorem X6_pdf_sections_are_the_printed_pages :
  forall (page_texts : list str) (text : str),
    Forall (fun t => contains (lit "Page ") t = false) page_texts ->
    extract_text_from_pdf (Return (map Return page_texts)) = Some text ->
    split_sections text PDF
    = map (fun p => strip (page_body (fst p + 1) (snd p)))
          (printed_pages 0 page_texts)
    /\ (forall (C : Type) (ops : Collection C) (c : C),
           add_calls (snd (process_and_store_content c text PDF))
           = requests PDF 0
                      (map (fun p => strip (page_body (fst p + 1) (snd p)))
                           (printed_pages 0 page_texts))).
Proof.
  intros page_texts text Hno Hext.
  assert (Htext : text = page_blocks 0 page_texts).
  { unfold extract_text_from_pdf in Hext.
    rewrite pdf_pages_loop_blocks in Hext. cbn [app] in Hext.
    destruct (truthy (page_blocks 0 page_texts)); cbn [negb] in Hext;
      congruence. }
  assert (Hsec : split_sections text PDF
                 = map (fun p => strip (page_body (fst p + 1) (snd p)))
                       (printed_pages 0 page_texts)).
  { subst text. unfold split_sections, split.
    rewrite page_blocks_printed.
    rewrite split_page_bodies by now apply printed_pages_no_marker.
    cbn [rev filter strip lstrip rstrip truthy].
    induction (printed_pages 0 page_texts) as [|p pages IH];
      [reflexivity|].
    cbn [map filter]. rewrite page_body_not_blank. cbn [map].
    f_equal. exact IH. }
  split; [exact Hsec|].
  intros C ops c. now rewrite process_and_store_content_add_calls, Hsec.
Qed.

Lemma X6_pdf_sections_are_the_printed_pages_witness :
  let page_texts :=
    [lit "The first page, with text."; lit "  "; lit "Third page here. "] in
  let text :=
    lit "Page 1:" ++ nl ++ lit "The first page, with text." ++ nl ++ nl
    ++ lit "Page 3:" ++ nl ++ lit "Third page here. " ++ nl ++ nl in
  split_sections text PDF
  = [lit "1:" ++ nl ++ lit "The first page, with text.";
     lit "3:" ++ nl ++ lit "Third page here."]
  /\ map fst (add_calls
                (snd (process_and_store_content
                        (H := mem_ops length_distance) [] text PDF)))
     = [lit "pdf_doc_1"; lit "pdf_doc_2"].
Proof.
  intros page_texts text.
  destruct (@X6_pdf_sections_are_the_printed_pages page_texts text)
    as [Hsec Hcalls].
  - repeat constructor.
  - reflexivity.
  - split; [exact Hsec|].
    rewrite (Hcalls Mem.t (mem_ops length_distance) []). reflexivity.
Defined.

(** A page whose text holds the marker is cut there. *)
Example page_text_with_marker_is_cut :
  split_sections
    (lit "Page 1:" ++ nl ++ lit "See Page 7 for the details." ++ nl ++ nl)
    PDF
  = [lit "1:" ++ nl ++ lit "See"; lit "7 for the details."].
Proof. reflexivity. Qed.

(** ** What the PDF extractor returns *)

Lemma pdf_pages_loop_return (pages : list (result str)) :
  forall k acc t,
    pdf_pages_loop k pages acc = Return t ->
    exists ts, pages = map Return ts.
Proof.
  induction pages as [|[page_text|e] pages IH]; intros k acc t Hrun.
  - now exists [].
  - simpl in Hrun. apply IH in Hrun as [ts ->]. now exists (page_text :: ts).
  - discriminate Hrun.
Qed.

(** The blocks of pages that are not all blank begin with the block
    of the first page that is not, under its number, and go on with the
    blocks of the pages after it. *)
Lemma page_blocks_first (ts : list str) :
  forall k,
    page_blocks k ts <> [] ->
    exists (n : nat) (t : str),
      nth_error ts n = Some t
      /\ ~ whitespace_only t
      /\ Forall whitespace_only (firstn n ts)
      /\ page_blocks k ts
         = lit "Page " ++ str_of_nat (k + n + 1) ++ lit ":" ++ nl
           ++ t ++ nl ++ nl ++ page_blocks (k + S n) (skipn (S n) ts).
Proof.
  induction ts as [|t ts IH]; intros k Hne; [now destruct Hne|].
  rewrite page_blocks_cons, page_block_cases in Hne.
  rewrite page_blocks_cons, page_block_cases.
  destruct (forallb isspace t) eqn:Hw.
  - cbn [app] in Hne. destruct (IH (S k) Hne) as [n [t' [Hn [Ht' [Hbl Heq]]]]].
    exists (S n), t'. split; [exact Hn|]. split; [exact Ht'|].
    split; [cbn [firstn]; constructor; [exact Hw | exact Hbl]|].
    cbn [app skipn]. rewrite Heq.
    replace (S k + n + 1) with (k + S n + 1) by lia.
    replace (S k + S n) with (k + S (S n)) by lia. reflexivity.
  - exists 0, t. split; [reflexivity|].
    split; [unfold whitespace_only; now rewrite Hw|].
    split; [constructor|].
    cbn [skipn]. rewrite Nat.add_0_r, Nat.add_1_r.
    now rewrite <- !app_assoc.
Qed.

(** X7. A text returned by [extract_text_from_pdf] is never empty:
    every page was read, and the text begins with the marker of the first
    page that holds more than whitespace, numbered from 1 by its position
    among all pages, then the text of that page and a blank line, then the
    blocks of the pages after it.  So the test [not content] of [main] can
    only meet the failure signal after a PDF extraction. *)
Theorem X7_pdf_text_begins_with_a_marker :
  forall (pdf : pdf_source) (text : str),
    extract_text_from_pdf pdf = Some text ->
    text <> []
    /\ exists (page_texts : list str) (n : nat) (t : str),
         pdf = Return (map Return page_texts)
         /\ nth_error page_texts n = Some t
         /\ ~ whitespace_only t
         /\ Forall whitespace_only (firstn n page_texts)
         /\ text
            = lit "Page " ++ str_of_nat (n + 1) ++ lit ":" ++ nl
              ++ t ++ nl ++ nl
              ++ page_blocks (S n) (skipn (S n) page_texts).
Proof.
  intros pdf text Hext. unfold extract_text_from_pdf in Hext.
  destruct pdf as [pages|e]; [|discriminate].
  destruct (pdf_pages_loop 0 pages []) as [t|e] eqn:Hloop; [|discriminate].
  destruct (pdf_pages_loop_return _ _ _ Hloop) as [ts ->].
  rewrite pdf_pages_loop_blocks in Hloop. injection Hloop as <-.
  cbn [app] in Hext.
  destruct (page_blocks 0 ts) as [|ch t] eqn:Hblocks; [discriminate|].
  injection Hext as <-. split; [discriminate|].
  destruct (page_blocks_first ts 0) as [n [t' [Hn [Ht' [Hbl Heq]]]]];
    [rewrite Hblocks; discriminate|].
  exists ts, n, t'. rewrite <- Hblocks.
  repeat split; assumption.
Qed.

Lemma X7_pdf_text_begins_with_a_marker_witness :
  exists (page_texts : list str) (n : nat) (t : str),
    Return [Return (lit " "); Return (lit "second page");
            Return (lit "third page")]
    = Return (map Return page_texts)
    /\ nth_error page_texts n = Some t
    /\ ~ whitespace_only t
    /\ Forall whitespace_only (firstn n page_texts)
    /\ lit "Page 2:" ++ nl ++ lit "second page" ++ nl ++ nl
       ++ lit "Page 3:" ++ nl ++ lit "third page" ++ nl ++ nl
       = lit "Page " ++ str_of_nat (n + 1) ++ lit ":" ++ nl
         ++ t ++ nl ++ nl
         ++ page_blocks (S n) (skipn (S n) page_texts).
Proof.
  apply (@X7_pdf_text_begins_with_a_marker
           (Return [Return (lit " "); Return (lit "second page");
                    Return (lit "third page")])).
  reflexivity.
Defined.

(** The marker of the example is that of its second page. *)
Example pdf_text_of_blank_first_page :
  extract_text_from_pdf
    (Return [Return (lit " "); Return (lit "second page");
             Return (lit "third page")])
  = Some (lit "Page 2:" ++ nl ++ lit "second page" ++ nl ++ nl
          ++ lit "Page 3:" ++ nl ++ lit "third page" ++ nl ++ nl).
Proof. reflexivity. Qed.

(** ** What is shown of the results *)

(** X8. The preview shown of a document is the document itself
    when it has at most 500 characters, and otherwise its first 500
    characters followed by three dots: never more than 503 characters. *)
Theorem X8_preview_is_bounded :
  forall doc : str,
    length (preview_of doc) <= 503
    /\ firstn 500 (preview_of doc) = firstn 500 doc
    /\ preview_of doc
       = (if length doc <=? 500 then doc else firstn 500 doc ++ lit "...").
Proof.
  intros doc. unfold preview_of, slice_to.
  destruct (500 <? length doc) eqn:Hlong.
  - apply Nat.ltb_lt in Hlong.
    assert (Hle : (length doc <=? 500) = false) by (apply Nat.leb_gt; lia).
    rewrite Hle.
    assert (H500 : length (firstn 500 doc) = 500)
      by (rewrite length_firstn; lia).
    split; [rewrite length_app, H500; simpl; lia|].
    split; [|reflexivity].
    rewrite firstn_app, H500, Nat.sub_diag, firstn_O, app_nil_r.
    now rewrite firstn_firstn, Nat.min_id.
  - apply Nat.ltb_ge in Hlong.
    assert (Hle : (length doc <=? 500) = true) by (apply Nat.leb_le; lia).
    assert (Hall : firstn 500 doc = doc) by (apply firstn_all2; lia).
    rewrite Hle, app_nil_r, !Hall.
    split; [lia|]. split; reflexivity.
Qed.

Lemma result_lines_length (docs : list str) :
  forall i dists,
    length (result_lines i docs dists)
    = Nat.min (length docs) (length dists).
Proof.
  induction docs as [|d docs IH]; intros i [|x dists]; simpl; auto.
Qed.

(** X9. [zip] pairs documents with distances as far as both go: the
    results shown are as many as the shorter of the two lists, ranked
    from 1.  When the query returns no list of documents, or an empty
    one, the only line shown says that nothing was found; when it
    returns documents but no list of distances at all, [IndexError] is
    raised. *)
Theorem X9_display_shows_the_paired_results :
  forall results : query_result,
    match documents results with
    | (doc :: docs) :: _ =>
        match distances results with
        | dists :: _ =>
            display results = Return (result_lines 0 (doc :: docs) dists)
            /\ length (result_lines 0 (doc :: docs) dists)
               = Nat.min (S (length docs)) (length dists)
            /\ shown_ranks (result_lines 0 (doc :: docs) dists)
               = seq 1 (Nat.min (S (length docs)) (length dists))
        | [] => display results = Raise IndexError
        end
    | _ => display results = Return [Print NoResults]
    end.
Proof.
  intros results. unfold display.
  destruct (documents results) as [|[|doc docs] more]; try reflexivity.
  destruct (distances results) as [|dists more']; [reflexivity|].
  split; [reflexivity|].
  destruct (result_lines_shown (doc :: docs) 0 dists) as [_ [_ Hranks]].
  split; [|exact Hranks].
  exact (result_lines_length (doc :: docs) 0 dists).
Qed.

(** ** Runs of [main] *)

Lemma main_not_connected (C : Type) (ops : Collection C) (w : world C)
      (e : exn) :
  connect w = Raise e -> main w = [Print (ErrorOccurred e)].
Proof. intros Hc. unfold main. now rewrite Hc. Qed.

(** X10. When at least one record was stored and the query raises,
    the error is reported, no result is shown, and the run still ends
    with the line saying that the session completed successfully. *)
Theorem X10_failed_query_still_completes :
  forall (C : Type) (ops : Collection C) (w : world C) (collection : C)
         (text : str) (e : exn),
    let ft := file_type_of_choice (user_choice w) in
    let run := process_and_store_content collection text ft in
    connect w = Return collection ->
    extract_content ft (pdf_file w) (txt_file w) = Return (Some text) ->
    text <> [] ->
    snd (fst run) <> 0 ->
    coll_query (fst (fst run)) (user_query w) (Nat.min 5 (snd (fst run)))
    = Raise e ->
    main w
    = snd run
      ++ [Print (Searching (user_query w));
          QueryCall (user_query w) (Nat.min 5 (snd (fst run)));
          Print (ErrorDuringQuery e);
          Print SessionCompleted].
Proof.
  intros C ops w collection text e ft run Hconn Hext Htext Hpos Hquery.
  rewrite (@main_stored C ops w collection Hconn text Hext Htext Hpos).
  fold ft. fold run. unfold search, n_results_of. now rewrite Hquery.
Qed.

Lemma X10_failed_query_still_completes_witness :
  main (H := no_search_ops)
       (txt_world (ascii_bytes "A paragraph to store.") (lit "what?"))
  = [Print (Storing TXT);
     AddCall (lit "txt_doc_1") (lit "A paragraph to store.");
     Print (Added (lit "txt_doc_1"));
     Print (Stored 1);
     Print (Searching (lit "what?"));
     QueryCall (lit "what?") 1;
     Print (ErrorDuringQuery (OtherError "search unavailable"));
     Print SessionCompleted].
Proof.
  apply (@X10_failed_query_still_completes
           Mem.t no_search_ops
           (txt_world (ascii_bytes "A paragraph to store.") (lit "what?"))
           [] (lit "A paragraph to store.")
           (OtherError "search unavailable"));
    try reflexivity; discriminate.
Defined.

(** X11. A run queries the collection at most once, for the question
    asked, and then for at least 1 and at most 5 results: no query is
    ever made for 0 results. *)
Theorem X11_at_most_one_query_for_1_to_5_results :
  forall (C : Type) (ops : Collection C) (w : world C),
    query_calls (main w) = []
    \/ exists n,
         1 <= n <= 5 /\ query_calls (main w) = [(user_query w, n)].
Proof.
  intros C ops w.
  destruct (connect w) as [collection|e] eqn:Hconn.
  - destruct (@main_cases C ops w collection Hconn)
      as [[e [_ Hmain]]
         |[[_ Hmain]
          |[[text [_ [_ [_ Hmain]]]]
           |[text [_ [_ [Hpos Hmain]]]]]]];
      rewrite Hmain.
    + now left.
    + now left.
    + left. now rewrite query_calls_app, process_and_store_content_no_query.
    + right.
      rewrite query_calls_app, process_and_store_content_no_query.
      destruct (search_calls
                  (fst (fst (process_and_store_content
                               collection text
                               (file_type_of_choice (user_choice w)))))
                  (user_query w)
                  (snd (fst (process_and_store_content
                               collection text
                               (file_type_of_choice (user_choice w))))))
        as [Hq _].
      rewrite Hq. eexists. split; [|reflexivity]. lia.
  - left. now rewrite (main_not_connected ops w Hconn).
Qed.

(** *** Text files *)

Lemma utf8_empty (bs : list N) : Codec.utf8 bs = Some [] -> bs = [].
Proof.
  destruct bs as [|b0 r0]; [reflexivity|]. cbn [Codec.utf8].
  destruct (b0 <? 128)%N.
  { destruct (Codec.utf8 r0); discriminate. }
  destruct ((194 <=? b0) && (b0 <=? 223))%N.
  { destruct r0 as [|b1 r1]; [discriminate|].
    destruct (Codec.continuation b1); [|discriminate].
    destruct (Codec.utf8 r1); discriminate. }
  destruct ((224 <=? b0) && (b0 <=? 239))%N.
  { destruct r0 as [|b1 [|b2 r2]]; try discriminate.
    match goal with
    | |- context [if ?b then _ else _] => destruct b
    end; [|discriminate].
    destruct (Codec.utf8 r2); discriminate. }
  destruct ((240 <=? b0) && (b0 <=? 244))%N; [|discriminate].
  destruct r0 as [|b1 [|b2 [|b3 r3]]]; try discriminate.
  match goal with
  | |- context [if ?b then _ else _] => destruct b
  end; [|discriminate].
  destruct (Codec.utf8 r3); discriminate.
Qed.

Lemma universal_newlines_empty (s : str) :
  Codec.universal_newlines s = [] -> s = [].
Proof.
  destruct s as [|c s]; [reflexivity|]. simpl.
  destruct (c =? 13)%N; discriminate.
Qed.

Lemma txt_content_empty (bs : list byte) :
  extract_text_from_txt Codec.decode (Return bs) = Return (Some [])
  <-> bs = [].
Proof.
  rewrite extract_text_from_txt_decoded. split.
  - intros Heq. injection Heq as Heq.
    apply universal_newlines_empty in Heq.
    unfold Codec.decode in Heq. cbn [Codec.lookup String.eqb Ascii.eqb] in Heq.
    change (Codec.lookup "utf-8") with (Some Codec.utf8) in Heq.
    destruct (Codec.utf8 (map Byte.to_N bs)) as [s|] eqn:Hutf.
    + subst s. apply utf8_empty in Hutf. now destruct bs.
    + now destruct bs.
  - now intros ->.
Qed.

(** X12. For a text file that can be opened, the run reports a
    failed extraction exactly when the file holds no byte at all: any
    other content, text or not, is decoded and handed on to storage. *)
Theorem X12_text_extraction_fails_only_on_an_empty_file :
  forall (C : Type) (ops : Collection C) (w : world C) (collection : C)
         (bs : list byte),
    connect w = Return collection ->
    file_type_of_choice (user_choice w) = TXT ->
    txt_file w = Return bs ->
    (main w = [Print ExtractionFailed] <-> bs = [])
    /\ (bs <> [] -> exists rest, main w = Print (Storing TXT) :: rest).
Proof.
  intros C ops w collection bs Hconn Hft Hfile.
  assert (Hext : extract_content TXT (pdf_file w) (txt_file w)
                 = extract_text_from_txt Codec.decode (Return bs))
    by (simpl; now rewrite Hfile).
  assert (Hempty : bs = [] -> main w = [Print ExtractionFailed]).
  { intros ->. apply (@main_extraction_failed C ops w collection Hconn).
    right. now rewrite Hft, Hext. }
  assert (Hfull : bs <> [] -> exists rest, main w = Print (Storing TXT) :: rest).
  { intros Hne.
    destruct (@main_cases C ops w collection Hconn)
      as [[e [Hx _]]
         |[[Hx _]
          |[[text [_ [_ [_ Hmain]]]]
           |[text [_ [_ [_ Hmain]]]]]]].
    - rewrite Hft, Hext, extract_text_from_txt_decoded in Hx. discriminate.
    - rewrite Hft, Hext in Hx. destruct Hx as [Hx|Hx].
      + rewrite extract_text_from_txt_decoded in Hx. discriminate.
      + apply txt_content_empty in Hx. contradiction.
    - rewrite Hmain, Hft, process_and_store_content_submit.
      destruct (submit collection (requests TXT 0 (split_sections text TXT))).
      eexists. reflexivity.
    - rewrite Hmain, Hft, process_and_store_content_submit.
      destruct (submit collection (requests TXT 0 (split_sections text TXT))).
      eexists. reflexivity. }
  split; [|exact Hfull]. split; [|exact Hempty].
  intros Hmain. destruct bs as [|b bs]; [reflexivity|].
  destruct Hfull as [rest Hrest]; [discriminate|].
  rewrite Hrest in Hmain. discriminate.
Qed.

Lemma X12_text_extraction_fails_only_on_an_empty_file_witness :
  exists rest,
    main (H := mem_ops length_distance)
         (txt_world [x25; x50; x44; x46; xff] (lit "what?"))
    = Print (Storing TXT) :: rest.
Proof.
  apply (@X12_text_extraction_fails_only_on_an_empty_file
           Mem.t (mem_ops length_distance)
           (txt_world [x25; x50; x44; x46; xff] (lit "what?"))
           [] [x25; x50; x44; x46; xff] eq_refl eq_refl eq_refl).
  discriminate.
Defined.

(** X13. A file that cannot be opened is reported differently by
    the two paths: a PDF gives the extraction failure, as the PDF
    extractor catches the exception; a text file gives the message of
    the handler around the whole run, as the text extractor catches
    decoding errors only.  Nothing is stored or queried in either
    case. *)
Theorem X13_unopenable_file_is_reported_by_file_type :
  forall (C : Type) (ops : Collection C) (w : world C) (collection : C)
         (e : exn),
    connect w = Return collection ->
    (file_type_of_choice (user_choice w) = PDF ->
     pdf_file w = Raise e ->
     main w = [Print ExtractionFailed])
    /\ (file_type_of_choice (user_choice w) = TXT ->
        txt_file w = Raise e ->
        is_unicode_decode_error e = false ->
        main w = [Print (ErrorOccurred e)]).
Proof.
  intros C ops w collection e Hconn. split.
  - intros Hft Hfile.
    apply (@main_extraction_failed C ops w collection Hconn).
    left. rewrite Hft. cbn [extract_content]. now rewrite Hfile.
  - intros Hft Hfile Hkind.
    unfold main. rewrite Hconn, Hft. cbn [extract_content].
    rewrite Hfile. unfold extract_text_from_txt. simpl. now rewrite Hkind.
Qed.

Lemma X13_unopenable_file_is_reported_by_file_type_witness :
  main (H := mem_ops length_distance)
       {| connect := Return []; user_choice := lit "1";
          pdf_file := Raise OSError; txt_file := Raise OSError;
          user_query := lit "what?" |}
  = [Print ExtractionFailed]
  /\ main (H := mem_ops length_distance)
          {| connect := Return []; user_choice := lit "2";
             pdf_file := Raise OSError; txt_file := Raise OSError;
             user_query := lit "what?" |}
     = [Print (ErrorOccurred OSError)].
Proof.
  split.
  - now apply (@X13_unopenable_file_is_reported_by_file_type
                 Mem.t (mem_ops length_distance)
                 {| connect := Return []; user_choice := lit "1";
                    pdf_file := Raise OSError; txt_file := Raise OSError;
                    user_query := lit "what?" |}
                 [] OSError eq_refl).
  - now apply (@X13_unopenable_file_is_reported_by_file_type
                 Mem.t (mem_ops length_distance)
                 {| connect := Return []; user_choice := lit "2";
                    pdf_file := Raise OSError; txt_file := Raise OSError;
                    user_query := lit "what?" |}
                 [] OSError eq_refl).
Defined.

(** ** Runs at the console *)

Lemma events_only_app (a b : list (notice + event)) :
  events_only (a ++ b) = events_only a ++ events_only b.
Proof.
  induction a as [|[n|ev] a IH]; simpl; [reflexivity | exact IH |].
  now rewrite IH.
Qed.

Lemma events_only_said (out : list notice) : events_only (said out) = [].
Proof. induction out; simpl; auto. Qed.

Lemma events_only_did (log : list event) : events_only (did log) = log.
Proof. induction log as [|ev log IH]; simpl; [reflexivity | now rewrite IH]. Qed.

(** X14. When the three readers get their entries, the events of a
    run at the console are those of [main] on the choice, the file and
    the question read: the choice is read first, the path from the
    lines that follow it, the question from the lines after the path. *)
Theorem X14_console_run_is_main_on_what_was_read :
  forall (C : Type) (ops : Collection C) (m : machine C) (lines : list str)
         (choice : str) (path : file_path) (question : str)
         (lines1 lines2 lines3 : list str) (out1 out2 out3 : list notice),
    get_user_choice lines = (Return choice, lines1, out1) ->
    get_file_path (file_exists m) lines1 = (Return path, lines2, out2) ->
    get_user_query lines2 = (Return question, lines3, out3) ->
    events_only (main_at_console m lines)
    = main {| connect := cloud m;
              user_choice := choice;
              pdf_file := read_pdf m path;
              txt_file := read_txt m path;
              user_query := question |}.
Proof.
  intros C ops m lines choice path question lines1 lines2 lines3
         out1 out2 out3 Hchoice Hpath Hquery.
  unfold main_at_console, main. cbn [connect user_choice pdf_file txt_file
                                      user_query].
  destruct (cloud m) as [collection|e]; [|reflexivity].
  rewrite Hchoice, Hpath.
  rewrite !events_only_app, !events_only_said. cbn [app].
  destruct (extract_content (file_type_of_choice choice)
                            (read_pdf m path) (read_txt m path))
    as [content|e]; [|reflexivity].
  destruct (negb (content_truthy content)); [reflexivity|].
  destruct (process_and_store_content
              collection (content_text content) (file_type_of_choice choice))
    as [[collection' docs_count] log].
  rewrite events_only_app, events_only_did.
  destruct (docs_count =? 0); [reflexivity|].
  rewrite Hquery, events_only_app, events_only_said, events_only_did.
  reflexivity.
Qed.

Lemma X14_console_run_is_main_on_what_was_read_witness :
  let m := {| cloud := Return [];
              file_exists := fun p => Return (str_eqb p (lit "notes.txt"));
              read_pdf := fun _ => Raise (OtherError "not a PDF");
              read_txt := fun _ => Return (ascii_bytes "A paragraph to store.")
           |} in
  events_only
    (main_at_console (H := no_search_ops) m
                     [lit "x"; lit "2"; lit "none.txt"; lit " notes.txt";
                      lit ""; lit "what?"])
  = main (H := no_search_ops)
         (txt_world (ascii_bytes "A paragraph to store.") (lit "what?")).
Proof.
  intros m.
  exact (@X14_console_run_is_main_on_what_was_read
           Mem.t no_search_ops m
           [lit "x"; lit "2"; lit "none.txt"; lit " notes.txt";
            lit ""; lit "what?"]
           (lit "2") (Typed (lit "notes.txt")) (lit "what?")
           [lit "none.txt"; lit " notes.txt"; lit ""; lit "what?"]
           [lit ""; lit "what?"] []
           [InvalidChoice] [FileNotFound (lit "none.txt")] [InvalidQuestion]
           eq_refl eq_refl eq_refl).
Defined.

(** X15. The question is asked only once records are stored: a run
    that stores nothing leaves the lines after the path unread, and a
    run whose input ends before a question is typed has already stored
    its records and ends with the message of the handler around the
    whole run, without any query. *)
Theorem X15_question_is_read_after_storage :
  forall (C : Type) (ops : Collection C) (m : machine C) (lines : list str)
         (collection : C) (choice : str) (path : file_path) (text : str)
         (lines1 lines2 : list str) (out1 out2 : list notice),
    let ft := file_type_of_choice choice in
    let run := process_and_store_content collection text ft in
    cloud m = Return collection ->
    get_user_choice lines = (Return choice, lines1, out1) ->
    get_file_path (file_exists m) lines1 = (Return path, lines2, out2) ->
    extract_content ft (read_pdf m path) (read_txt m path)
    = Return (Some text) ->
    text <> [] ->
    (snd (fst run) = 0 ->
     main_at_console m lines
     = said out1 ++ said out2 ++ did (snd run)
       ++ did [Print NoDocumentsStored])
    /\ (snd (fst run) <> 0 ->
        forall e lines3 out3,
          get_user_query lines2 = (Raise e, lines3, out3) ->
          main_at_console m lines
          = said out1 ++ said out2 ++ did (snd run) ++ said out3
            ++ did [Print (ErrorOccurred e)]).
Proof.
  intros C ops m lines collection choice path text lines1 lines2 out1 out2
         ft run Hcloud Hchoice Hpath Hext Htext.
  assert (Hmain : main_at_console m lines
                  = said out1 ++ said out2 ++ did (snd run)
                    ++ if snd (fst run) =? 0
                       then did [Print NoDocumentsStored]
                       else let '(query, _, out3) := get_user_query lines2 in
                            said out3 ++
                            match query with
                            | Raise e => did [Print (ErrorOccurred e)]
                            | Return user_query =>
                                did (search (fst (fst run)) user_query
                                            (snd (fst run)))
                            end).
  { unfold main_at_console. rewrite Hcloud, Hchoice, Hpath. fold ft.
    rewrite Hext. cbn [content_truthy content_text].
    destruct text as [|ch text]; [contradiction|]. cbn [truthy negb].
    subst run.
    destruct (process_and_store_content collection (ch :: text) ft)
      as [[collection' docs_count] log].
    reflexivity. }
  split.
  - intros Hzero. rewrite Hmain, Hzero. reflexivity.
  - intros Hpos e lines3 out3 Hquery. rewrite Hmain, Hquery.
    destruct (snd (fst run) =? 0) eqn:Hz; [|reflexivity].
    apply Nat.eqb_eq in Hz. contradiction.
Qed.

Lemma X15_question_is_read_after_storage_witness :
  let m := {| cloud := Return [];
              file_exists := fun _ => Return true;
              read_pdf := fun _ => Raise (OtherError "not a PDF");
              read_txt := fun _ => Return (ascii_bytes "A paragraph to store.")
           |} in
  main_at_console (H := mem_ops length_distance) m
                  [lit "2"; lit "notes.txt"; lit "  "]
  = [inr (Print (Storing TXT));
     inr (AddCall (lit "txt_doc_1") (lit "A paragraph to store."));
     inr (Print (Added (lit "txt_doc_1")));
     inr (Print (Stored 1));
     inl InvalidQuestion;
     inr (Print (ErrorOccurred EOFError))].
Proof.
  intros m.
  destruct (@X15_question_is_read_after_storage
              Mem.t (mem_ops length_distance) m
              [lit "2"; lit "notes.txt"; lit "  "]
              [] (lit "2") (Typed (lit "notes.txt"))
              (lit "A paragraph to store.")
              [lit "notes.txt"; lit "  "] [lit "  "] [] []
              eq_refl eq_refl eq_refl eq_refl)
    as [_ Heof]; [discriminate|].
  apply (Heof ltac:(discriminate) EOFError [] [InvalidQuestion] eq_refl).
Defined.

(** ** The conversation script *)

Lemma last_five_length (messages : list chat_message) :
  length (last_five messages) = Nat.min 5 (length messages).
Proof. unfold last_five. rewrite length_skipn. lia. Qed.

Lemma last_five_recent (older recent : list chat_message) :
  length recent = 5 -> last_five (older ++ recent) = recent.
Proof.
  intros Hlen. unfold last_five.
  rewrite length_app, Hlen, Nat.add_sub, skipn_app, skipn_all, Nat.sub_diag.
  reflexivity.
Qed.

Lemma last_five_short (messages : list chat_message) :
  length messages <= 5 -> last_five messages = messages.
Proof.
  intros Hlen. unfold last_five.
  replace (length messages - 5) with 0 by lia. reflexivity.
Qed.

Lemma join_length (sep : str) (bound : nat) (l : list str) :
  Forall (fun x => length x <= bound) l ->
  length (join sep l) <= length l * bound + (length l - 1) * length sep.
Proof.
  induction 1 as [|x l Hx Hl IH]; [simpl; lia|].
  destruct l as [|y l].
  - simpl. lia.
  - rewrite join_cons by discriminate.
    rewrite !length_app. cbn [length] in *.
    rewrite Nat.sub_succ, Nat.sub_0_r in *. nia.
Qed.

(** X16. [summarize_messages] returns a summary followed by the
    last five messages of the history, or all of them when there are
    fewer, unchanged and in order: at most 6 messages.  The summary has
    the role of the system, begins with the same words and has at most
    303 characters, however long the history and its messages. *)
Theorem X16_summary_is_short_and_keeps_the_last_five :
  forall messages : list chat_message,
    exists (summary : chat_message) (older : list chat_message),
      summarize_messages messages = summary :: last_five messages
      /\ messages = older ++ last_five messages
      /\ length (last_five messages) = Nat.min 5 (length messages)
      /\ length (summarize_messages messages) <= 6
      /\ role summary = lit "system"
      /\ startswith (lit "Previous conversation summarized: ")
                    (content summary) = true
      /\ length (content summary) <= 303.
Proof.
  intros messages.
  eexists. exists (firstn (length messages - 5) messages).
  split; [reflexivity|].
  split; [unfold last_five; now rewrite firstn_skipn|].
  split; [apply last_five_length|].
  split; [cbn [summarize_messages length]; rewrite last_five_length; lia|].
  split; [reflexivity|].
  split; [reflexivity|].
  cbn [content]. rewrite length_app.
  pose proof (@join_length (lit " ") 53
                (map (fun m => slice_to 50 (content m) ++ lit "...")
                     (last_five messages))) as Hjoin.
  rewrite length_map, last_five_length in Hjoin.
  assert (Hitems : Forall (fun x => length x <= 53)
                          (map (fun m => slice_to 50 (content m) ++ lit "...")
                               (last_five messages))).
  { apply Forall_map, Forall_forall. intros m _.
    unfold slice_to. rewrite length_app, length_firstn.
    change (length (lit "...")) with 3. lia. }
  specialize (Hjoin Hitems).
  change (length (lit "Previous conversation summarized: ")) with 34.
  change (length (lit " ")) with 1 in Hjoin. lia.
Qed.

(** X17. The summary is made of the last five messages alone, which
    are also the ones kept: the messages before them are dropped and
    nothing of them enters the summary. *)
Theorem X17_summary_ignores_older_messages :
  forall older recent : list chat_message,
    length recent = 5 ->
    summarize_messages (older ++ recent) = summarize_messages recent.
Proof.
  intros older recent Hlen. unfold summarize_messages.
  now rewrite last_five_recent, last_five_short by lia.
Qed.

Lemma X17_summary_ignores_older_messages_witness :
  let recent :=
    map (fun text => {| role := lit "user"; content := lit text |})
        ["one"; "two"; "three"; "four"; "five"]%string in
  summarize_messages (create_initial_messages ++ recent)
  = summarize_messages recent.
Proof.
  intros recent.
  apply (@X17_summary_ignores_older_messages create_initial_messages recent).
  reflexivity.
Defined.

Section ChatFacts.

Variable api : str -> list chat_message -> result str.
Variable describe : exn -> str.

Lemma chat_length (user_input : str) (messages : list chat_message)
      (model_name : str) :
  length (snd (chat api describe user_input messages model_name))
  <= length messages + 2.
Proof.
  unfold chat.
  destruct (api model_name _); cbn [snd]; rewrite !length_app; simpl; lia.
Qed.

Lemma summarize_messages_length (messages : list chat_message) :
  length (summarize_messages messages) <= 6.
Proof.
  cbn [summarize_messages length]. rewrite last_five_length. lia.
Qed.

Lemma conversation_bounded (model_name : str) (lines : list str) :
  forall messages file,
    length messages <= 10 ->
    match file with Some saved => length saved <= 10 | None => True end ->
    let '(_, final, file', _) :=
      conversation api describe model_name lines messages file in
    length final <= 10
    /\ match file' with Some saved => length saved <= 10 | None => True end.
Proof.
  induction lines as [|user_input rest IH]; intros messages file Hm Hf.
  - simpl. now split.
  - cbn [conversation].
    destruct (str_eqb (lower user_input) (lit "quit")); [now split|].
    destruct (str_eqb (lower user_input) (lit "save")).
    { specialize (IH messages (Some messages) Hm Hm).
      now destruct (conversation api describe model_name rest messages
                                 (Some messages)) as [[[? ?] ?] ?]. }
    destruct (str_eqb (lower user_input) (lit "load")).
    { destruct file as [saved|].
      - specialize (IH saved (Some saved) Hf Hf).
        now destruct (conversation api describe model_name rest saved
                                   (Some saved)) as [[[? ?] ?] ?].
      - assert (Hinit : length create_initial_messages <= 10)
          by (simpl; lia).
        specialize (IH create_initial_messages None Hinit I).
        now destruct (conversation api describe model_name rest
                                   create_initial_messages None)
          as [[[? ?] ?] ?]. }
    destruct (str_eqb (lower user_input) (lit "summary")).
    { assert (Hsum : length (summarize_messages messages) <= 10)
        by (pose proof (summarize_messages_length messages); lia).
      specialize (IH (summarize_messages messages) file Hsum Hf).
      now destruct (conversation api describe model_name rest
                                 (summarize_messages messages) file)
        as [[[? ?] ?] ?]. }
    destruct (chat api describe user_input messages model_name)
      as [response messages1] eqn:Hchat.
    destruct (10 <? length messages1) eqn:Hlong.
    + assert (Hsum : length (summarize_messages messages1) <= 10)
        by (pose proof (summarize_messages_length messages1); lia).
      specialize (IH (summarize_messages messages1) file Hsum Hf).
      now destruct (conversation api describe model_name rest
                                 (summarize_messages messages1) file)
        as [[[? ?] ?] ?].
    + apply Nat.ltb_ge in Hlong.
      specialize (IH messages1 file Hlong Hf).
      now destruct (conversation api describe model_name rest messages1 file)
        as [[[? ?] ?] ?].
Qed.

End ChatFacts.

(** X18. Whatever is typed and whatever the model answers, a
    conversation that starts from the initial history, with no saved
    file or one of at most 10 messages, never ends with a history, nor
    with a saved file, of more than 10 messages. *)
Theorem X18_history_never_exceeds_10_messages :
  forall (api : str -> list chat_message -> result str)
         (describe : exn -> str) (model_name : str) (lines : list str)
         (file : option (list chat_message)),
    match file with Some saved => length saved <= 10 | None => True end ->
    let '(_, final, file', _) :=
      conversation api describe model_name lines
                   create_initial_messages file in
    length final <= 10
    /\ match file' with Some saved => length saved <= 10 | None => True end.
Proof.
  intros api describe model_name lines file Hfile.
  apply conversation_bounded; [simpl; lia | exact Hfile].
Qed.

Lemma X18_history_never_exceeds_10_messages_witness :
  let '(_, final, file', _) :=
    conversation (fun _ _ => Return (lit "Fine."))
                 (fun _ => lit "failed")
                 (lit "gpt-4o-mini")
                 [lit "a"; lit "b"; lit "c"; lit "d"; lit "SAVE"; lit "e";
                  lit "f"; lit "Load"; lit "g"; lit "h"]
                 create_initial_messages None in
  length final <= 10
  /\ match file' with Some saved => length saved <= 10 | None => True end.
Proof.
  exact (@X18_history_never_exceeds_10_messages
           (fun _ _ => Return (lit "Fine.")) (fun _ => lit "failed")
           (lit "gpt-4o-mini")
           [lit "a"; lit "b"; lit "c"; lit "d"; lit "SAVE"; lit "e";
            lit "f"; lit "Load"; lit "g"; lit "h"]
           None I).
Defined.

Example conversation_auto_summarized :
  let '(ending, final, _, out) :=
    conversation (fun _ _ => Return (lit "Fine."))
                 (fun _ => lit "failed")
                 (lit "gpt-4o-mini")
                 [lit "a"; lit "b"; lit "c"; lit "d"; lit "e"; lit "Quit";
                  lit "never read"]
                 create_initial_messages None in
  ending = Quit
  /\ length final = 6
  /\ out = [Assistant (lit "Fine."); Assistant (lit "Fine.");
            Assistant (lit "Fine."); Assistant (lit "Fine.");
            Assistant (lit "Fine."); AutoSummarized].
Proof. vm_compute. repeat split. Qed.

(** ** More on ids and stored records *)

(** X19. An id tells the file type and the position it was made
    from: two ids are equal only for the same file type and the same
    position, so that the records of a PDF and those of a text file
    never share an id. *)
Theorem X19_ids_tell_file_type_and_position :
  forall (ft ft' : file_type) (i j : nat),
    doc_id_of ft i = doc_id_of ft' j <-> ft = ft' /\ i = j.
Proof.
  intros ft ft' i j. split.
  - intros Heq. destruct ft, ft'; try discriminate Heq;
      (split; [reflexivity | now apply doc_id_of_inj in Heq]).
  - now intros [-> ->].
Qed.

(** X20. A run changes and removes no record stored before, whatever
    the text it processes: it appends, in order, the requests whose id
    was not yet stored, and nothing else.  The count it returns is the
    number of its requests, stored by this run or before it, so the
    collection grows by no more than that count. *)
Theorem X20_a_run_only_appends_records :
  forall (distance : str -> str -> Q) (c : Mem.t) (content : str)
         (ft : file_type),
    let run := process_and_store_content (H := mem_ops distance) c content ft in
    let reqs := requests ft 0 (split_sections content ft) in
    fst (fst run) = c ++ filter (fun r => negb (Mem.has c (fst r))) reqs
    /\ snd (fst run) = length reqs
    /\ length (fst (fst run)) <= length c + snd (fst run).
Proof.
  intros distance c content ft run reqs.
  assert (Hc : fst (fst run)
               = c ++ filter (fun r => negb (Mem.has c (fst r))) reqs).
  { subst run. rewrite process_and_store_content_collection.
    apply mem_submit_appends, requests_ids_nodup. }
  assert (Hn : snd (fst run) = length reqs)
    by apply mem_docs_count_stored.
  split; [exact Hc|]. split; [exact Hn|].
  rewrite Hc, Hn, length_app.
  apply Nat.add_le_mono_l, filter_length_le.
Qed.

(** ** Line ends *)

Lemma universal_newlines_no_cr (n : nat) :
  forall s, length s <= n -> ~ In 13%N (Codec.universal_newlines s).
Proof.
  induction n as [|n IH]; intros s Hlen.
  - destruct s; [intros [] | simpl in Hlen; lia].
  - destruct s as [|c s]; [intros []|]. cbn [Codec.universal_newlines].
    simpl in Hlen.
    destruct (c =? 13)%N eqn:Hc.
    + intros [Heq|Hin]; [discriminate|].
      destruct s as [|d s]; [destruct Hin|].
      destruct (d =? 10)%N.
      * apply (IH s); [simpl in Hlen; lia | exact Hin].
      * apply (IH (d :: s)); [lia | exact Hin].
    + intros [Heq|Hin].
      * subst c. discriminate Hc.
      * apply (IH s); [lia | exact Hin].
Qed.

(** X21. The text read from a text file holds no carriage return:
    the line ends of Windows and of old Macintosh files are read as
    line feeds, so that their blank lines separate paragraphs as those
    of other files do. *)
Theorem X21_text_content_has_no_carriage_return :
  forall (bs : list byte) (content : str),
    extract_text_from_txt Codec.decode (Return bs) = Return (Some content) ->
    ~ In 13%N content.
Proof.
  intros bs content Hext.
  rewrite extract_text_from_txt_decoded in Hext. injection Hext as <-.
  now apply (universal_newlines_no_cr (n := length
    match Codec.decode "utf-8" bs with
    | Some s => s
    | None => map Byte.to_N bs
    end)).
Qed.

Lemma X21_text_content_has_no_carriage_return_witness :
  ~ In 13%N (lit "one" ++ nl ++ nl ++ lit "two" ++ nl).
Proof.
  apply (@X21_text_content_has_no_carriage_return
           (ascii_bytes "one" ++ [x0d; x0a; x0d; x0a] ++ ascii_bytes "two"
            ++ [x0d])).
  reflexivity.
Defined.
